(** * radio_duck.sqlalchemy: the RadioDuck dialect

    A shallow embedding of [src/radio_duck/sqlalchemy.py] and the
    properties of its introspection and connection-lifecycle methods.

    Python values that travel through the dialect are modelled by [pyval],
    a [str] by the sequence of its code points (each below 256), a [dict]
    with string keys by a [gmap string _], and the calls made on the
    DB-API connection by a log of [event]s threaded through a small
    state-and-exception monad. *)

From Stdlib Require Import ZArith Ascii Lia.
From stdpp Require Import base option gmap strings list fin_maps.

Local Open Scope Z_scope.

(** ** Python [str] methods used by the dialect *)

Module pystr.

(** [str.isspace] on one character: the code points that Python treats as
    whitespace, restricted to the first 256 (tab to carriage return, the
    four separators 0x1c-0x1f, space, NEL and the no-break space). *)
Definition isspace (c : ascii) : bool :=
  let n := N_of_ascii c in
  ((9 <=? n) && (n <=? 13) || (28 <=? n) && (n <=? 32)
   || (n =? 133) || (n =? 160))%N.

(** [s.lstrip()] *)
Fixpoint lstrip (s : string) : string :=
  match s with
  | EmptyString => EmptyString
  | String c r => if isspace c then lstrip r else s
  end.

(** [s.rstrip()] *)
Fixpoint rstrip (s : string) : string :=
  match s with
  | EmptyString => EmptyString
  | String c r =>
      match rstrip r with
      | EmptyString => if isspace c then EmptyString else String c EmptyString
      | r' => String c r'
      end
  end.

(** [s.strip()] *)
Definition strip (s : string) : string := rstrip (lstrip s).

(** [s.split(sep)] for a one-character separator: never the empty list,
    [''.split(',') == ['']]. *)
Fixpoint split (sep : ascii) (s : string) : list string :=
  match s with
  | EmptyString => [EmptyString]
  | String c r =>
      if Ascii.eqb c sep then EmptyString :: split sep r
      else match split sep r with
           | piece :: pieces => String c piece :: pieces
           | [] => [String c EmptyString]
           end
  end.

(** The characters of a string, for statements about its content. *)
Fixpoint chars (s : string) : list ascii :=
  match s with
  | EmptyString => []
  | String c r => c :: chars r
  end.

(** [needle in hay]: [needle] occurs in [hay] at some offset. *)
Fixpoint contains (needle hay : string) : bool :=
  String.prefix needle hay
  || match hay with
     | EmptyString => false
     | String _ r => contains needle r
     end.

End pystr.

(** ** The one regular expression of the module *)

Module re.

Definition newline : ascii := ascii_of_N 10.

(** The tail of the pattern, [(.*?)\)], tried right after an opening
    parenthesis: the lazy group takes as few characters as possible, so it
    stops at the first closing parenthesis; [.] does not match a newline,
    so a newline met before that makes the attempt fail. *)
Fixpoint lazy_group (s : string) : option string :=
  match s with
  | EmptyString => None
  | String c r =>
      if Ascii.eqb c ")" then Some EmptyString
      else if Ascii.eqb c newline then None
      else String c <$> lazy_group r
  end.

(** [re.search(r"\((.*?)\)", s)], returning [match.group(1)]: the
    pattern is tried at each offset from the left and the first offset
    where it matches wins. *)
Fixpoint search (s : string) : option string :=
  match s with
  | EmptyString => None
  | String c r =>
      if Ascii.eqb c "("
      then match lazy_group r with
           | Some g => Some g
           | None => search r
           end
      else search r
  end.

End re.

(** ** Python values, exceptions and outcomes *)

(** The values that a catalog row can hold and that the dialect returns. *)
#[warnings="-register-all"]
Inductive pyval : Type :=
| VNone
| VBool (b : bool)
| VInt (z : Z)
| VStr (s : string)
| VList (items : list pyval).

(** A catalog row, an ordered sequence of column values, is a [list pyval];
    a [dict] with string keys, as the dialect builds for each record, is a
    [gmap string pyval]. *)

(** Modelled from the spec: the exception classes met in the module.
    [NotSupportedError] is the DB-API class imported from
    [radio_duck.exceptions], which is not part of this module; the spec
    keeps it apart from the builtin [NotImplementedError].  [IndexError],
    [KeyError] and [TypeError] are the builtins that subscripting and
    [re.search] raise; [Error] stands for whatever the DB-API collaborator
    raises. *)
Inductive exception : Type :=
| NotImplementedError
| NotSupportedError (msg : string)
| IndexError
| KeyError
| TypeError
| Error (descr : string).

(** How a call ends: it returns a value or it raises. *)
Inductive outcome (A : Type) : Type :=
| Return (a : A)
| Raise (e : exception).
Arguments Return {A} a.
Arguments Raise {A} e.

Definition outcome_bind {A B} (o : outcome A) (k : A -> outcome B) : outcome B :=
  match o with
  | Return a => k a
  | Raise e => Raise e
  end.

(** A list comprehension whose element expression may raise: the elements
    are evaluated from left to right and the first exception ends it. *)
Fixpoint comprehension {A B} (f : A -> outcome B) (l : list A) : outcome (list B) :=
  match l with
  | [] => Return []
  | x :: l' =>
      outcome_bind (f x) (fun y =>
      outcome_bind (comprehension f l') (fun ys => Return (y :: ys)))
  end.

(** [row[i]] *)
Definition getitem (r : list pyval) (i : nat) : outcome pyval :=
  match r !! i with
  | Some v => Return v
  | None => Raise IndexError
  end.

(** ** The catalog statements *)

Module queries.

(** Modelled from the spec: the catalog query library [radio_duck.queries],
    whose SQL text is not part of this module: a fixed set of named,
    positionally parameterized statements.  The dialect only hands them to
    [cursor.execute], so each statement is represented by its name. *)
Inductive statement : Type :=
| get_check_constraint
| get_columns
| get_constraints
| get_indexes
| get_sequences
| get_tables
| get_temp_tables
| get_temp_views
| get_view_sql
| get_views
| has_index_query
| has_sequence_query
| has_table_query.

End queries.

(** ** The DB-API connection *)

(** The calls made on the connection and on its cursor, in order.  A call is
    logged whether it returns or raises; for [connection.cursor()] the log
    also tells whether a cursor came back. *)
Inductive event : Type :=
| cursor_call (acquired : bool)
| execute_call (operation : queries.statement) (parameters : list pyval)
| fetchall_call
| fetchone_call
| close_call.

(** The supplied connection: what each call answers, given everything that
    was called before.  Any of them may raise. *)
Record DBAPIConnection : Type := {
  cursor : list event -> outcome unit;
  execute : list event -> queries.statement -> list pyval -> outcome unit;
  rowcount : list event -> Z;
  fetchall : list event -> outcome (list (list pyval));
  fetchone : list event -> outcome (option (list pyval));
  close : list event -> outcome unit
}.

(** Computations that call the connection: the log is threaded through and
    survives an exception. *)
Definition M (A : Type) : Type := list event -> list event * outcome A.

Definition ret {A} (a : A) : M A := fun h => (h, Return a).

Definition bind {A B} (m : M A) (k : A -> M B) : M B := fun h =>
  match m h with
  | (h1, Return a) => k a h1
  | (h1, Raise e) => (h1, Raise e)
  end.

(** A computation that calls nothing. *)
Definition pure {A} (o : outcome A) : M A := fun h => (h, o).

Notation "x <- m ;; k" := (bind m (fun x => k))
  (at level 100, m at next level, right associativity).

(** [try: body finally: cleanup]: the cleanup runs however the body ends;
    an exception of the cleanup replaces the outcome of the body. *)
Definition try_finally {A} (body : M A) (cleanup : M unit) : M A := fun h =>
  let (h1, r) := body h in
  match cleanup h1 with
  | (h2, Return _) => (h2, r)
  | (h2, Raise e) => (h2, Raise e)
  end.

Section Calls.
Variable connection : DBAPIConnection.

Definition call_cursor : M unit := fun h =>
  match cursor connection h with
  | Return _ => (h ++ [cursor_call true], Return tt)
  | Raise e => (h ++ [cursor_call false], Raise e)
  end.

Definition call_execute (operation : queries.statement)
    (parameters : list pyval) : M unit := fun h =>
  (h ++ [execute_call operation parameters],
   execute connection h operation parameters).

Definition read_rowcount : M Z := fun h => (h, Return (rowcount connection h)).

Definition call_fetchall : M (list (list pyval)) := fun h =>
  (h ++ [fetchall_call], fetchall connection h).

Definition call_fetchone : M (option (list pyval)) := fun h =>
  (h ++ [fetchone_call], fetchone connection h).

Definition call_close : M unit := fun h =>
  (h ++ [close_call], close connection h).

(** The frame shared by every introspection method:
<<
    cursor = None
    try:
        cursor = connection.cursor()
        body
    finally:
        if cursor is not None:
            cursor.close()
>>
    When [connection.cursor()] raises, [cursor] is still [None] and the
    [finally] clause has nothing to close. *)
Definition with_cursor {A} (body : M A) : M A := fun h =>
  match call_cursor h with
  | (h1, Return _) => try_finally body call_close h1
  | (h1, Raise e) => (h1, Raise e)
  end.

End Calls.

(** ** The type compiler *)

Module RadioDuckDialectTypeCompiler.


End RadioDuckDialectTypeCompiler.

(** ** The dialect *)

Module RadioDuckDialect.

(** The attributes of the dialect object that its methods read. *)
Record attributes : Type := {
  name : string;
  driver : string;
  isolation_level : string;
  default_paramstyle : string;
  default_schema_name : string;
  supports_sequences : bool;
  supports_native_enum : bool;
  supports_native_boolean : bool;
  supports_native_decimal : bool;
  supports_empty_insert : bool;
  supports_multivalues_insert : bool;
  tuple_in_values : bool
}.

(** The class attributes, as every instance starts with. *)
Definition class_attributes : attributes := {|
  name := "radio_duck";
  driver := "district5";
  isolation_level := "SNAPSHOT";
  default_paramstyle := "qmark";
  default_schema_name := "main";
  supports_sequences := true;
  supports_native_enum := true;
  supports_native_boolean := true;
  supports_native_decimal := true;
  supports_empty_insert := false;
  supports_multivalues_insert := true;
  tuple_in_values := true
|}.

(** Methods that read or could write the dialect object: [self] goes in and
    comes out. *)
Definition method (A : Type) : Type := attributes -> attributes * outcome A.

(** *** do methods *)

Definition do_savepoint (connection : DBAPIConnection) (name : string)
  : method unit := fun self => (self, Raise NotImplementedError).

Definition do_rollback_to_savepoint (connection : DBAPIConnection)
  (name : string) : method unit := fun self => (self, Raise NotImplementedError).

Definition do_rollback (dbapi_connection : DBAPIConnection) : method unit :=
  fun self => (self, Return tt).

Definition do_release_savepoint (connection : DBAPIConnection)
  (name : string) : method unit := fun self => (self, Raise NotImplementedError).

Definition do_recover_twophase (connection : DBAPIConnection) : method unit :=
  fun self => (self, Raise NotImplementedError).

Definition do_prepare_twophase (connection : DBAPIConnection) (xid : pyval)
  : method unit := fun self => (self, Raise NotImplementedError).

Definition do_commit_twophase (connection : DBAPIConnection) (xid : pyval)
  (is_prepared recover : bool) : method unit :=
  fun self => (self, Raise NotImplementedError).

Definition do_commit (dbapi_connection : DBAPIConnection) : method unit :=
  fun self => (self, Return tt).

Definition do_begin_twophase (connection : DBAPIConnection) (xid : pyval)
  : method unit := fun self => (self, Raise NotImplementedError).

Definition do_begin (dbapi_connection : DBAPIConnection) : method unit :=
  fun self => (self, Return tt).

(** *** connect methods *)

(** The URL-like argument of [create_connect_args]: what
    [url.translate_connect_args()] returns (a fresh mapping at each call) and
    the mapping [url.query]. *)
Record URL : Type := {
  translate_connect_args : gmap string pyval;
  query : gmap string pyval
}.

(** [opts.update(other)]: every key of [other] is set in [opts]. *)
Definition update (opts other : gmap string pyval) : gmap string pyval :=
  other ∪ opts.

Definition create_connect_args (url : URL)
  : list pyval * gmap string pyval :=
  let opts := translate_connect_args url in
  let opts := update opts (query url) in
  ([], opts).

Definition create_xid : method pyval := fun self =>
  (self, Raise (NotSupportedError "transactions not supported over http yet")).

Definition reset_isolation_level (dbapi_conn : DBAPIConnection) : method unit :=
  fun self => (self, Return tt).

Definition set_isolation_level (dbapi_conn : DBAPIConnection) (level : string)
  : method unit := fun self => (self, Return tt).

Definition get_isolation_level (dbapi_conn : DBAPIConnection) : method string :=
  fun self => (self, Return (isolation_level self)).

Definition get_default_isolation_level (dbapi_conn : DBAPIConnection)
  : method string := fun self => (self, Return (isolation_level self)).

(** [is_disconnect(e, connection, cursor)].  The marker
    [connect_close_resource_msg] is a constant of [radio_duck.db], which is
    not part of this module, and [str] gives the text [str(e)] of an error:
    both are parameters. *)
Definition is_disconnect {error cursor_type : Type} (str : error -> string)
  (connect_close_resource_msg : string)
  (e : option error) (connection : DBAPIConnection) (cursor : cursor_type)
  : bool :=
  match e with
  | None => false
  | Some e => pystr.contains connect_close_resource_msg (str e)
  end.

(** *** has and get methods *)

(** The guard that opens the schema-normalising methods:
<<
      if schema is None or "" == schema.strip():
          schema = "main"
>>
*)
Definition schema_or_main (schema : option string) : string :=
  match schema with
  | None => "main"
  | Some s => if String.eqb "" (pystr.strip s) then "main" else s
  end.

Definition has_index (connection : DBAPIConnection)
  (table_name index_name : string) (schema : option string) : M bool :=
  let schema := schema_or_main schema in
  with_cursor connection (
    _ <- call_execute connection queries.has_index_query
           [VStr schema; VStr table_name; VStr index_name] ;;
    n <- read_rowcount connection ;;
    ret (n =? 1)).

Definition has_table (connection : DBAPIConnection) (table_name : string)
  (schema : option string) : M bool :=
  let schema := schema_or_main schema in
  with_cursor connection (
    _ <- call_execute connection queries.has_table_query
           [VStr schema; VStr table_name] ;;
    n <- read_rowcount connection ;;
    ret (n =? 1)).

Definition has_sequence (connection : DBAPIConnection) (sequence_name : string)
  (schema : option string) : M bool :=
  let schema := schema_or_main schema in
  with_cursor connection (
    _ <- call_execute connection queries.has_sequence_query
           [VStr schema; VStr sequence_name] ;;
    n <- read_rowcount connection ;;
    ret (n =? 1)).

(** [[col_val for row in rows for col_val in row]] *)
Definition flatten (rows : list (list pyval)) : list pyval := concat rows.

Definition get_table_names (connection : DBAPIConnection)
  (schema : option string) : M (list pyval) :=
  let schema := schema_or_main schema in
  with_cursor connection (
    _ <- call_execute connection queries.get_tables [VStr schema] ;;
    rows <- call_fetchall connection ;;
    let table_names := flatten rows in
    ret table_names).

Definition get_view_names (connection : DBAPIConnection)
  (schema : option string) : M (list pyval) :=
  let schema := schema_or_main schema in
  with_cursor connection (
    _ <- call_execute connection queries.get_views [VStr schema] ;;
    rows <- call_fetchall connection ;;
    let views := flatten rows in
    ret views).

Definition get_view_definition (connection : DBAPIConnection)
  (view_name : string) (schema : option string) : M pyval :=
  let schema := schema_or_main schema in
  with_cursor connection (
    _ <- call_execute connection queries.get_view_sql
           [VStr schema; VStr view_name] ;;
    row <- call_fetchone connection ;;
    pure match row with
         | None => Return (VStr "")
         | Some row => getitem row 0
         end).

(** [{"name": row[0], "column_names": row[1]}] *)
Definition constraint_record (row : list pyval) : outcome (gmap string pyval) :=
  outcome_bind (getitem row 0) (fun name =>
  outcome_bind (getitem row 1) (fun column_names =>
  Return {[ "name" := name; "column_names" := column_names ]})).

Definition get_unique_constraints (connection : DBAPIConnection)
  (table_name : string) (schema : option string)
  : M (list (gmap string pyval)) :=
  let schema := schema_or_main schema in
  with_cursor connection (
    _ <- call_execute connection queries.get_constraints
           [VStr schema; VStr table_name; VStr "UNIQUE"] ;;
    rows <- call_fetchall connection ;;
    list_of_maps <- pure (comprehension constraint_record rows) ;;
    ret list_of_maps).

(** The schema is ignored for this query: no guard and no parameter. *)
Definition get_temp_view_names (connection : DBAPIConnection)
  (schema : option string) : M (list pyval) :=
  with_cursor connection (
    _ <- call_execute connection queries.get_temp_views [] ;;
    rows <- call_fetchall connection ;;
    let temp_views := flatten rows in
    ret temp_views).

Definition get_temp_table_names (connection : DBAPIConnection)
  (schema : option string) : M (list pyval) :=
  let schema := schema_or_main schema in
  with_cursor connection (
    _ <- call_execute connection queries.get_temp_tables [VStr schema] ;;
    rows <- call_fetchall connection ;;
    let temp_tables := flatten rows in
    ret temp_tables).

Definition get_table_comment (connection : DBAPIConnection)
  (table_name : string) (schema : option string) : method pyval :=
  fun self => (self, Raise NotImplementedError).

Definition get_sequence_names (connection : DBAPIConnection)
  (schema : option string) : M (list pyval) :=
  let schema := schema_or_main schema in
  with_cursor connection (
    _ <- call_execute connection queries.get_sequences [VStr schema] ;;
    rows <- call_fetchall connection ;;
    let seq_names := flatten rows in
    ret seq_names).

Definition get_pk_constraint (connection : DBAPIConnection)
  (table_name : string) (schema : option string)
  : M (list (gmap string pyval)) :=
  let schema := schema_or_main schema in
  with_cursor connection (
    _ <- call_execute connection queries.get_constraints
           [VStr schema; VStr table_name; VStr "PRIMARY KEY"] ;;
    row <- call_fetchone connection ;;
    list_of_maps <- pure match row with
                         | Some row =>
                             outcome_bind (constraint_record row)
                               (fun mp => Return [mp])
                         | None => Return []
                         end ;;
    ret list_of_maps).

(** [{"name": row[0], "sql": row[1], "unique": row[2]}] *)
Definition index_record (row : list pyval) : outcome (gmap string pyval) :=
  outcome_bind (getitem row 0) (fun name =>
  outcome_bind (getitem row 1) (fun sql =>
  outcome_bind (getitem row 2) (fun unique =>
  Return {[ "name" := name; "sql" := sql; "unique" := unique ]}))).

(** The body of the loop [for mp in list_of_maps] of [get_indexes], on the
    dict [mp] that the list holds.  [re.search] raises [TypeError] when
    [mp["sql"]] is not a [str]. *)
Definition add_column_names (mp : gmap string pyval)
  : outcome (gmap string pyval) :=
  let mp := <["column_names" := VList []]> mp in
  match mp !! "sql" with
  | None => Raise KeyError
  | Some (VStr sql) =>
      let mp :=
        match re.search sql with
        | Some group1 =>
            let columns := pystr.split "," group1 in
            let columns := pystr.strip <$> columns in
            <["column_names" := VList (VStr <$> columns)]> mp
        | None => mp
        end in
      Return (delete "sql" mp)
  | Some _ => Raise TypeError
  end.

Definition get_indexes (connection : DBAPIConnection) (table_name : string)
  (schema : option string) : M (list (gmap string pyval)) :=
  let schema := schema_or_main schema in
  with_cursor connection (
    _ <- call_execute connection queries.get_indexes
           [VStr schema; VStr table_name] ;;
    rows <- call_fetchall connection ;;
    list_of_maps <- pure (comprehension index_record rows) ;;
    list_of_maps <- pure (comprehension add_column_names list_of_maps) ;;
    ret list_of_maps).

Definition get_foreign_keys (connection : DBAPIConnection)
  (table_name : string) (schema : option string)
  : M (list (gmap string pyval)) :=
  let schema := schema_or_main schema in
  with_cursor connection (
    _ <- call_execute connection queries.get_constraints
           [VStr schema; VStr table_name; VStr "FOREIGN KEY"] ;;
    rows <- call_fetchall connection ;;
    list_of_maps <- pure (comprehension constraint_record rows) ;;
    ret list_of_maps).

(** [{"name": row[0], "type": row[1], "nullable": row[2], "default": row[3]}] *)
Definition column_record (row : list pyval) : outcome (gmap string pyval) :=
  outcome_bind (getitem row 0) (fun name =>
  outcome_bind (getitem row 1) (fun type =>
  outcome_bind (getitem row 2) (fun nullable =>
  outcome_bind (getitem row 3) (fun default =>
  Return {[ "name" := name; "type" := type;
            "nullable" := nullable; "default" := default ]})))).

Definition get_columns (connection : DBAPIConnection) (table_name : string)
  (schema : option string) : M (list (gmap string pyval)) :=
  let schema := schema_or_main schema in
  with_cursor connection (
    _ <- call_execute connection queries.get_columns
           [VStr schema; VStr table_name] ;;
    rows <- call_fetchall connection ;;
    list_of_maps <- pure (comprehension column_record rows) ;;
    ret list_of_maps).

(** [{"name": row[0], "sqltext": row[1]}] *)
Definition check_record (row : list pyval) : outcome (gmap string pyval) :=
  outcome_bind (getitem row 0) (fun name =>
  outcome_bind (getitem row 1) (fun sqltext =>
  Return {[ "name" := name; "sqltext" := sqltext ]})).

Definition get_check_constraints (connection : DBAPIConnection)
  (table_name : string) (schema : option string)
  : M (list (gmap string pyval)) :=
  let schema := schema_or_main schema in
  with_cursor connection (
    _ <- call_execute connection queries.get_check_constraint
           [VStr schema; VStr table_name] ;;
    rows <- call_fetchall connection ;;
    list_of_maps <- pure (comprehension check_record rows) ;;
    ret list_of_maps).

End RadioDuckDialect.

(** ** The operation table *)

(** The fifteen methods that acquire a cursor, with their arguments; used to
    state what holds of every one of them. *)
Inductive introspection : Type :=
| has_table (table_name : string) (schema : option string)
| has_index (table_name index_name : string) (schema : option string)
| has_sequence (sequence_name : string) (schema : option string)
| get_table_names (schema : option string)
| get_view_names (schema : option string)
| get_temp_table_names (schema : option string)
| get_temp_view_names (schema : option string)
| get_sequence_names (schema : option string)
| get_view_definition (view_name : string) (schema : option string)
| get_columns (table_name : string) (schema : option string)
| get_pk_constraint (table_name : string) (schema : option string)
| get_unique_constraints (table_name : string) (schema : option string)
| get_foreign_keys (table_name : string) (schema : option string)
| get_check_constraints (table_name : string) (schema : option string)
| get_indexes (table_name : string) (schema : option string).

(** What a method hands back. *)
Inductive answer : Type :=
| boolean (b : bool)
| names (l : list pyval)
| value (v : pyval)
| records (l : list (gmap string pyval)).

Definition answering {A} (wrap : A -> answer) (m : M A) : M answer :=
  x <- m ;; ret (wrap x).

(** Calling a method of the table on a connection. *)
Definition invoke (connection : DBAPIConnection) (op : introspection)
  : M answer :=
  match op with
  | has_table t s => answering boolean (RadioDuckDialect.has_table connection t s)
  | has_index t i s =>
      answering boolean (RadioDuckDialect.has_index connection t i s)
  | has_sequence q s =>
      answering boolean (RadioDuckDialect.has_sequence connection q s)
  | get_table_names s =>
      answering names (RadioDuckDialect.get_table_names connection s)
  | get_view_names s =>
      answering names (RadioDuckDialect.get_view_names connection s)
  | get_temp_table_names s =>
      answering names (RadioDuckDialect.get_temp_table_names connection s)
  | get_temp_view_names s =>
      answering names (RadioDuckDialect.get_temp_view_names connection s)
  | get_sequence_names s =>
      answering names (RadioDuckDialect.get_sequence_names connection s)
  | get_view_definition v s =>
      answering value (RadioDuckDialect.get_view_definition connection v s)
  | get_columns t s =>
      answering records (RadioDuckDialect.get_columns connection t s)
  | get_pk_constraint t s =>
      answering records (RadioDuckDialect.get_pk_constraint connection t s)
  | get_unique_constraints t s =>
      answering records (RadioDuckDialect.get_unique_constraints connection t s)
  | get_foreign_keys t s =>
      answering records (RadioDuckDialect.get_foreign_keys connection t s)
  | get_check_constraints t s =>
      answering records (RadioDuckDialect.get_check_constraints connection t s)
  | get_indexes t s =>
      answering records (RadioDuckDialect.get_indexes connection t s)
  end.

(** The schema argument of a call. *)
Definition schema_argument (op : introspection) : option string :=
  match op with
  | has_table _ s | has_index _ _ s | has_sequence _ s
  | get_table_names s | get_view_names s | get_temp_table_names s
  | get_temp_view_names s | get_sequence_names s | get_view_definition _ s
  | get_columns _ s | get_pk_constraint _ s | get_unique_constraints _ s
  | get_foreign_keys _ s | get_check_constraints _ s | get_indexes _ s => s
  end.

(** The calls that a computation adds to the log [h]. *)
Definition emitted {A} (m : M A) (h : list event) : list event :=
  drop (length h) (fst (m h)).

(** The statements that a trace executes, with their parameter lists. *)
Fixpoint executed (t : list event) : list (queries.statement * list pyval) :=
  match t with
  | [] => []
  | execute_call q ps :: t' => (q, ps) :: executed t'
  | _ :: t' => executed t'
  end.

(** The calls on the cursor between its acquisition and its release. *)
Definition use (e : event) : bool :=
  match e with
  | execute_call _ _ | fetchall_call | fetchone_call => true
  | cursor_call _ | close_call => false
  end.

(** A connection none of whose [cursor], [execute] and [close] raises. *)
Definition error_free (connection : DBAPIConnection) : Prop :=
  (forall h, cursor connection h = Return tt) /\
  (forall h q ps, execute connection h q ps = Return tt) /\
  (forall h, close connection h = Return tt).

(** A schema argument that is absent, empty or made of whitespace only. *)
Definition blank (schema : option string) : Prop :=
  match schema with
  | None => True
  | Some s => Forall (fun c => pystr.isspace c = true) (pystr.chars s)
  end.

(** A connection that never raises, reports the row count [n] and serves
    the rows [rows]; [fetchone] serves the first of them. *)
Definition scripted (n : Z) (rows : list (list pyval)) : DBAPIConnection := {|
  cursor := fun _ => Return tt;
  execute := fun _ _ _ => Return tt;
  rowcount := fun _ => n;
  fetchall := fun _ => Return rows;
  fetchone := fun _ => Return (head rows);
  close := fun _ => Return tt
|}.

(** ** The calls that leave the isolation level alone *)

Inductive lifecycle : Type :=
| do_begin (dbapi_connection : DBAPIConnection)
| do_commit (dbapi_connection : DBAPIConnection)
| do_rollback (dbapi_connection : DBAPIConnection)
| reset_isolation_level (dbapi_conn : DBAPIConnection)
| set_isolation_level (dbapi_conn : DBAPIConnection) (level : string).

Definition lifecycle_call (c : lifecycle) : RadioDuckDialect.method unit :=
  match c with
  | do_begin conn => RadioDuckDialect.do_begin conn
  | do_commit conn => RadioDuckDialect.do_commit conn
  | do_rollback conn => RadioDuckDialect.do_rollback conn
  | reset_isolation_level conn => RadioDuckDialect.reset_isolation_level conn
  | set_isolation_level conn level =>
      RadioDuckDialect.set_isolation_level conn level
  end.

(** A sequence of calls on one dialect object; an exception would end it. *)
Fixpoint call_in_turn (cs : list lifecycle) : RadioDuckDialect.method unit :=
  fun self =>
    match cs with
    | [] => (self, Return tt)
    | c :: cs' =>
        match lifecycle_call c self with
        | (self1, Return _) => call_in_turn cs' self1
        | (self1, Raise e) => (self1, Raise e)
        end
    end.

(** A computation that only uses the cursor: it neither acquires nor
    closes one. *)
Definition uses_only {A} (m : M A) : Prop :=
  forall h, exists u, fst (m h) = h ++ u /\ Forall (fun e => use e = true) u.

(** The three existence checks of the table. *)
Definition existence_check (op : introspection) : bool :=
  match op with
  | has_table _ _ | has_index _ _ _ | has_sequence _ _ => true
  | _ => false
  end.

(** ** The first parenthesized group, in words *)

(** The pattern [\((.*?)\)] matches [sql] at the offset [length pre] with the
    group [g]: an opening parenthesis, then [g], which reaches up to the next
    closing parenthesis and holds no newline. *)
Definition group_at (sql pre g post : string) : Prop :=
  sql = pre +:+ "(" +:+ g +:+ ")" +:+ post
  /\ (")"%char ∉ pystr.chars g)
  /\ (re.newline ∉ pystr.chars g).

(** [g] is the first parenthesized group of [sql]: the pattern matches with
    group [g] at some offset and at no offset before it. *)
Definition first_group (sql g : string) : Prop :=
  exists pre post,
    group_at sql pre g post
    /\ forall pre' g' post',
         group_at sql pre' g' post' ->
         (String.length pre <= String.length pre')%nat.

(** [sql] has no parenthesized group. *)
Definition no_group (sql : string) : Prop :=
  forall pre g post, ~ group_at sql pre g post.

(** The column names that the spec derives from the creation SQL of an
    index: the pieces of its first parenthesized group between commas, each
    trimmed, and none when there is no group. *)
Definition column_names_of (sql : string) (cols : list string) : Prop :=
  (exists g, first_group sql g /\ cols = pystr.strip <$> pystr.split "," g)
  \/ (no_group sql /\ cols = []).

(** The first parenthesized group as C5 words it, with no word on lines:
    what stands between an opening parenthesis and the next closing one. *)
Definition stated_group_at (sql pre g post : string) : Prop :=
  sql = pre +:+ "(" +:+ g +:+ ")" +:+ post
  /\ (")"%char ∉ pystr.chars g).

Definition stated_first_group (sql g : string) : Prop :=
  exists pre post,
    stated_group_at sql pre g post
    /\ forall pre' g' post',
         stated_group_at sql pre' g' post' ->
         (String.length pre <= String.length pre')%nat.

(** A row of the index statement, [name, sql, unique], with a [str] as
    creation SQL. *)
Definition index_row (row : list pyval) : Prop :=
  exists name sql unique rest, row = name :: VStr sql :: unique :: rest.

(** The record that the spec promises for a row of the index statement: the
    name and the unique flag of the row, the derived column names, and no
    other key. *)
Definition index_described (row : list pyval) (mp : gmap string pyval) : Prop :=
  exists name sql unique rest cols,
    row = name :: VStr sql :: unique :: rest
    /\ column_names_of sql cols
    /\ mp = {[ "name" := name; "unique" := unique;
               "column_names" := VList (VStr <$> cols) ]}
    /\ mp !! "sql" = None
    /\ (forall pre post,
          "("%char ∉ pystr.chars pre ->
          sql = pre +:+ "(col_a, col_b)" +:+ post ->
          cols = ["col_a"; "col_b"]).

(** ** Connections that fail at one call *)

(** [execute] raises [e]; every other call returns. *)
Definition refusing (e : exception) : DBAPIConnection := {|
  cursor := fun _ => Return tt;
  execute := fun _ _ _ => Raise e;
  rowcount := fun _ => -1;
  fetchall := fun _ => Return [];
  fetchone := fun _ => Return None;
  close := fun _ => Return tt
|}.

(** [fetchall] and [fetchone] raise [e]; every other call returns. *)
Definition unreadable (e : exception) : DBAPIConnection := {|
  cursor := fun _ => Return tt;
  execute := fun _ _ _ => Return tt;
  rowcount := fun _ => -1;
  fetchall := fun _ => Raise e;
  fetchone := fun _ => Raise e;
  close := fun _ => Return tt
|}.

(** [close] raises [e]; every other call returns as [scripted] does. *)
Definition unclosable (e : exception) (n : Z) (rows : list (list pyval))
  : DBAPIConnection := {|
  cursor := fun _ => Return tt;
  execute := fun _ _ _ => Return tt;
  rowcount := fun _ => n;
  fetchall := fun _ => Return rows;
  fetchone := fun _ => Return (head rows);
  close := fun _ => Raise e
|}.

(** ** Groups of methods *)

(** The five methods that return a list of names. *)
Definition name_listing (op : introspection) : bool :=
  match op with
  | get_table_names _ | get_view_names _ | get_temp_table_names _
  | get_temp_view_names _ | get_sequence_names _ => true
  | _ => false
  end.

(** The methods that build one record per fetched row with subscripts only,
    and the number of columns that their record reads. *)
Definition columns_read (op : introspection) : option nat :=
  match op with
  | get_columns _ _ => Some 4%nat
  | get_unique_constraints _ _ | get_foreign_keys _ _
  | get_check_constraints _ _ => Some 2%nat
  | _ => None
  end.

(** A column name as [get_indexes] leaves it: no comma, no closing
    parenthesis, no newline, and nothing left to trim. *)
Definition clean_column (c : string) : Prop :=
  (","%char ∉ pystr.chars c)
  /\ (")"%char ∉ pystr.chars c)
  /\ (re.newline ∉ pystr.chars c)
  /\ pystr.strip c = c.

(** A record function that reads the first [w] columns of a row: it returns
    a record named by the first column when the row has them, and raises
    [IndexError] when it does not. *)
Definition reads (w : nat) (f : list pyval -> outcome (gmap string pyval)) : Prop :=
  forall r,
    ((w <= length r)%nat /\ exists mp, f r = Return mp /\ mp !! "name" = r !! 0%nat)
    \/ ((length r < w)%nat /\ f r = Raise IndexError).

(** * Properties *)

(** ** Unsupported capabilities *)

(** C7: [create_xid] raises [NotSupportedError]; the savepoint and two-phase
    methods and [get_table_comment] raise [NotImplementedError], a different
    exception; none of them returns, whatever the arguments and the state of
    the dialect object. *)
Theorem unsupported_signals_are_distinguished :
  forall (self : RadioDuckDialect.attributes) (connection : DBAPIConnection)
         (name : string) (xid : pyval) (is_prepared recover : bool)
         (schema : option string),
    snd (RadioDuckDialect.create_xid self)
      = Raise (NotSupportedError "transactions not supported over http yet")
    /\ snd (RadioDuckDialect.do_savepoint connection name self)
         = Raise NotImplementedError
    /\ snd (RadioDuckDialect.do_rollback_to_savepoint connection name self)
         = Raise NotImplementedError
    /\ snd (RadioDuckDialect.do_release_savepoint connection name self)
         = Raise NotImplementedError
    /\ snd (RadioDuckDialect.do_recover_twophase connection self)
         = Raise NotImplementedError
    /\ snd (RadioDuckDialect.do_prepare_twophase connection xid self)
         = Raise NotImplementedError
    /\ snd (RadioDuckDialect.do_commit_twophase connection xid
              is_prepared recover self)
         = Raise NotImplementedError
    /\ snd (RadioDuckDialect.do_begin_twophase connection xid self)
         = Raise NotImplementedError
    /\ snd (RadioDuckDialect.get_table_comment connection name schema self)
         = Raise NotImplementedError
    /\ (forall msg, @Raise pyval (NotSupportedError msg)
                    <> Raise NotImplementedError).
Proof.
  intros. repeat split; discriminate.
Qed.

(** ** Connection arguments *)

Lemma lookup_update (opts other : gmap string pyval) (k : string) :
  RadioDuckDialect.update opts other !! k
  = match other !! k with
    | Some v => Some v
    | None => opts !! k
    end.
Proof.
  unfold RadioDuckDialect.update. rewrite lookup_union.
  destruct (other !! k), (opts !! k); reflexivity.
Qed.

(** C8: [create_connect_args] returns no positional argument and the
    translated components of the URL updated by its query parameters: a key
    of the query string carries the query-string value, any other key the
    translated component, and a key of neither is absent. *)
Theorem create_connect_args_query_overrides :
  forall (url : RadioDuckDialect.URL),
    let (args, opts) := RadioDuckDialect.create_connect_args url in
    args = []
    /\ opts = RadioDuckDialect.update
                (RadioDuckDialect.translate_connect_args url)
                (RadioDuckDialect.query url)
    /\ (forall k v, RadioDuckDialect.query url !! k = Some v ->
                    opts !! k = Some v)
    /\ (forall k, RadioDuckDialect.query url !! k = None ->
                  opts !! k = RadioDuckDialect.translate_connect_args url !! k).
Proof.
  intros url. unfold RadioDuckDialect.create_connect_args.
  split; [reflexivity|]. split; [reflexivity|].
  split; intros k; [intros v Hq|intros Hq]; rewrite lookup_update, Hq; reflexivity.
Qed.

Lemma create_connect_args_query_overrides_witness :
  snd (RadioDuckDialect.create_connect_args
         {| RadioDuckDialect.translate_connect_args :=
              {[ "host" := VStr "localhost"; "port" := VInt 8000 ]};
            RadioDuckDialect.query := {[ "port" := VInt 9000 ]} |})
    !! "port" = Some (VInt 9000).
Proof.
  pose proof (create_connect_args_query_overrides
         {| RadioDuckDialect.translate_connect_args :=
              {[ "host" := VStr "localhost"; "port" := VInt 8000 ]};
            RadioDuckDialect.query := {[ "port" := VInt 9000 ]} |}) as H.
  cbv beta iota zeta delta [RadioDuckDialect.create_connect_args] in H.
  destruct H as (_ & _ & H & _).
  apply H. reflexivity.
Defined.

(** ** Isolation level *)

Lemma lifecycle_call_is_noop (c : lifecycle) (self : RadioDuckDialect.attributes) :
  lifecycle_call c self = (self, Return tt).
Proof. destruct c; reflexivity. Qed.

Lemma call_in_turn_is_noop (cs : list lifecycle) (self : RadioDuckDialect.attributes) :
  call_in_turn cs self = (self, Return tt).
Proof.
  induction cs as [|c cs IH]; simpl; [reflexivity|].
  rewrite lifecycle_call_is_noop. exact IH.
Qed.

(** C9: any sequence of [do_begin], [do_commit], [do_rollback],
    [reset_isolation_level] and [set_isolation_level] calls, on whatever
    connections, returns without raising and leaves the dialect object as it
    was; [get_isolation_level] and [get_default_isolation_level] return
    "SNAPSHOT" before the calls and after them. *)
Theorem isolation_level_is_fixed :
  forall (cs : list lifecycle) (conn : DBAPIConnection),
    let before := RadioDuckDialect.class_attributes in
    let after := fst (call_in_turn cs before) in
    (forall self, call_in_turn cs self = (self, Return tt))
    /\ after = before
    /\ snd (RadioDuckDialect.get_isolation_level conn before) = Return "SNAPSHOT"
    /\ snd (RadioDuckDialect.get_default_isolation_level conn before)
         = Return "SNAPSHOT"
    /\ snd (RadioDuckDialect.get_isolation_level conn after) = Return "SNAPSHOT"
    /\ snd (RadioDuckDialect.get_default_isolation_level conn after)
         = Return "SNAPSHOT".
Proof.
  intros cs conn. cbv zeta. rewrite call_in_turn_is_noop. simpl.
  split; [intros self; apply call_in_turn_is_noop|]. repeat split.
Qed.

(** ** Release of the cursor *)

Create HintDb uses discriminated.

Lemma uses_only_ret {A} (a : A) : uses_only (ret a).
Proof. intros h. exists []. rewrite app_nil_r. auto. Qed.

Lemma uses_only_pure {A} (o : outcome A) : uses_only (pure o).
Proof. intros h. exists []. rewrite app_nil_r. auto. Qed.

Lemma uses_only_bind {A B} (m : M A) (k : A -> M B) :
  uses_only m -> (forall a, uses_only (k a)) -> uses_only (bind m k).
Proof.
  intros Hm Hk h. unfold bind.
  destruct (Hm h) as (u & Hu & Hf).
  destruct (m h) as [h1 [a|e]]; simpl in Hu; subst h1.
  - destruct (Hk a (h ++ u)) as (v & Hv & Hg).
    exists (u ++ v). rewrite Hv, app_assoc. split; [reflexivity|].
    apply Forall_app; auto.
  - exists u. auto.
Qed.

Lemma uses_only_execute conn q ps : uses_only (call_execute conn q ps).
Proof. intros h. exists [execute_call q ps]. split; [reflexivity|]. repeat constructor. Qed.

Lemma uses_only_rowcount conn : uses_only (read_rowcount conn).
Proof. intros h. exists []. rewrite app_nil_r. auto. Qed.

Lemma uses_only_fetchall conn : uses_only (call_fetchall conn).
Proof. intros h. exists [fetchall_call]. split; [reflexivity|]. repeat constructor. Qed.

Lemma uses_only_fetchone conn : uses_only (call_fetchone conn).
Proof. intros h. exists [fetchone_call]. split; [reflexivity|]. repeat constructor. Qed.

#[local] Hint Resolve uses_only_ret uses_only_pure uses_only_bind
  uses_only_execute uses_only_rowcount uses_only_fetchall
  uses_only_fetchone : uses.

(** The frame closes the cursor it acquired, last, however the body ends. *)
Lemma with_cursor_releases {A} conn (body : M A) (h : list event) :
  uses_only body ->
  (exists e, cursor conn h = Raise e
             /\ with_cursor conn body h = (h ++ [cursor_call false], Raise e))
  \/ (cursor conn h = Return tt
      /\ exists u, fst (with_cursor conn body h)
                   = h ++ cursor_call true :: u ++ [close_call]
                   /\ Forall (fun e => use e = true) u).
Proof.
  intros Hbody. unfold with_cursor, call_cursor.
  destruct (cursor conn h) as [[]|e]; [right|left; eauto].
  split; [reflexivity|].
  destruct (Hbody (h ++ [cursor_call true])) as (u & Hu & Hf).
  exists u. split; [|exact Hf].
  unfold try_finally, call_close.
  destruct (body _) as [h1 r]; simpl in Hu; subst h1.
  destruct (close conn _); simpl; rewrite <- !app_assoc; reflexivity.
Qed.

Lemma answering_log {A} (wrap : A -> answer) (m : M A) (h : list event) :
  fst (answering wrap m h) = fst (m h).
Proof. unfold answering, bind, ret. destruct (m h) as [h1 [a|e]]; reflexivity. Qed.

Lemma answering_raise {A} (wrap : A -> answer) (m : M A) h h1 e :
  m h = (h1, Raise e) -> answering wrap m h = (h1, Raise e).
Proof. intros H. unfold answering, bind. rewrite H. reflexivity. Qed.

Lemma answering_releases {A} conn (wrap : A -> answer) (body : M A) h :
  uses_only body ->
  (exists e, cursor conn h = Raise e
             /\ answering wrap (with_cursor conn body) h
                = (h ++ [cursor_call false], Raise e))
  \/ (cursor conn h = Return tt
      /\ exists u, fst (answering wrap (with_cursor conn body) h)
                   = h ++ cursor_call true :: u ++ [close_call]
                   /\ Forall (fun e => use e = true) u).
Proof.
  intros Hbody.
  destruct (with_cursor_releases conn body h Hbody) as [(e & Hc & Hr)|(Hc & u & Hu & Hf)].
  - left. exists e. split; [exact Hc|]. apply answering_raise, Hr.
  - right. split; [exact Hc|]. exists u. rewrite answering_log. auto.
Qed.

(** C1: whatever the connection answers, each of the fifteen methods either
    gets no cursor, because [connection.cursor()] raised, and propagates that
    exception, or gets one, only uses it, and ends its calls with
    [cursor.close()], whether it then returns or raises. *)
Theorem cursor_is_closed_on_every_path :
  forall (conn : DBAPIConnection) (op : introspection) (h : list event),
    (exists e, cursor conn h = Raise e
               /\ invoke conn op h = (h ++ [cursor_call false], Raise e))
    \/ (cursor conn h = Return tt
        /\ exists u, fst (invoke conn op h)
                     = h ++ cursor_call true :: u ++ [close_call]
                     /\ Forall (fun e => use e = true) u).
Proof.
  intros conn op h.
  destruct op; apply answering_releases; auto 10 with uses.
Qed.

(** ** Schema normalisation *)

Lemma lstrip_blank (s : string) :
  Forall (fun c => pystr.isspace c = true) (pystr.chars s) -> pystr.lstrip s = "".
Proof.
  induction s as [|c r IH]; simpl; [reflexivity|].
  intros H. inversion H as [|? ? Hc Hr]; subst. rewrite Hc. auto.
Qed.

Lemma lstrip_keeps_blank (s : string) :
  Forall (fun c => pystr.isspace c = true) (pystr.chars (pystr.lstrip s)) ->
  Forall (fun c => pystr.isspace c = true) (pystr.chars s).
Proof.
  induction s as [|c r IH]; simpl; [auto|].
  destruct (pystr.isspace c) eqn:Hc; [|auto].
  intros H. constructor; auto.
Qed.

Lemma rstrip_empty (s : string) :
  pystr.rstrip s = "" -> Forall (fun c => pystr.isspace c = true) (pystr.chars s).
Proof.
  induction s as [|c r IH]; simpl; [constructor|].
  destruct (pystr.rstrip r); [|discriminate].
  destruct (pystr.isspace c) eqn:Hc; [|discriminate].
  intros _. constructor; auto.
Qed.

(** [s.strip()] is empty exactly when [s] holds whitespace only. *)
Lemma strip_empty_iff (s : string) :
  pystr.strip s = "" <-> Forall (fun c => pystr.isspace c = true) (pystr.chars s).
Proof.
  unfold pystr.strip. split.
  - intros H. apply lstrip_keeps_blank, rstrip_empty, H.
  - intros H. rewrite (lstrip_blank s H). reflexivity.
Qed.

Lemma schema_or_main_blank (schema : option string) :
  blank schema -> RadioDuckDialect.schema_or_main schema = "main".
Proof.
  destruct schema as [s|]; [|reflexivity].
  unfold blank, RadioDuckDialect.schema_or_main.
  intros H. apply strip_empty_iff in H. rewrite H. reflexivity.
Qed.

Lemma schema_or_main_not_blank (s : string) :
  ~ blank (Some s) -> RadioDuckDialect.schema_or_main (Some s) = s.
Proof.
  unfold blank, RadioDuckDialect.schema_or_main. intros H.
  destruct (String.eqb "" (pystr.strip s)) eqn:E; [|reflexivity].
  apply String.eqb_eq in E. destruct H. apply strip_empty_iff. auto.
Qed.

(** ** Running a method against an arbitrary connection *)

Ltac unfold_method :=
  unfold invoke, answering,
    RadioDuckDialect.has_table, RadioDuckDialect.has_index,
    RadioDuckDialect.has_sequence, RadioDuckDialect.get_table_names,
    RadioDuckDialect.get_view_names, RadioDuckDialect.get_temp_table_names,
    RadioDuckDialect.get_temp_view_names, RadioDuckDialect.get_sequence_names,
    RadioDuckDialect.get_view_definition, RadioDuckDialect.get_columns,
    RadioDuckDialect.get_pk_constraint, RadioDuckDialect.get_unique_constraints,
    RadioDuckDialect.get_foreign_keys, RadioDuckDialect.get_check_constraints,
    RadioDuckDialect.get_indexes, RadioDuckDialect.flatten,
    with_cursor, try_finally, bind, ret, pure,
    call_cursor, call_execute, call_fetchall, call_fetchone, call_close,
    read_rowcount.

(** Case analysis on what the connection answers to each call in turn. *)
Ltac answer_calls :=
  repeat (cbn beta iota zeta;
    match goal with
    | |- context [match execute ?c ?h ?q ?ps with _ => _ end] =>
        destruct (execute c h q ps) as [[]|?]
    | |- context [match fetchall ?c ?h with _ => _ end] =>
        destruct (fetchall c h) as [?|?]
    | |- context [match fetchone ?c ?h with _ => _ end] =>
        destruct (fetchone c h) as [[?|]|?]
    | |- context [match comprehension ?f ?l with _ => _ end] =>
        destruct (comprehension f l) as [?|?]
    | |- context [match getitem ?r ?i with _ => _ end] =>
        destruct (getitem r i) as [?|?]
    | |- context [match outcome_bind ?o ?k with _ => _ end] =>
        destruct (outcome_bind o k) as [?|?]
    | |- context [match close ?c ?h with _ => _ end] =>
        destruct (close c h) as [[]|?]
    end).

(** C2, amended: for every method of the table other than
    [get_temp_view_names], when the schema argument is absent, empty or
    whitespace-only and a cursor is obtained, exactly one statement is
    executed and its first parameter is the string "main". *)
Theorem blank_schema_is_bound_to_main :
  forall (conn : DBAPIConnection) (op : introspection) (h : list event),
    (forall s, op <> get_temp_view_names s) ->
    blank (schema_argument op) ->
    cursor conn h = Return tt ->
    exists q rest,
      executed (emitted (invoke conn op) h) = [(q, VStr "main" :: rest)].
Proof.
  intros conn op h Hop Hblank Hcursor.
  destruct op; simpl in Hblank;
    try (exfalso; eapply Hop; reflexivity);
    do 2 eexists; unfold emitted; unfold_method;
    rewrite (schema_or_main_blank _ Hblank), Hcursor;
    answer_calls; cbn [fst]; rewrite <- ?app_assoc, drop_app_length;
    reflexivity.
Qed.

Lemma blank_schema_is_bound_to_main_witness :
  exists q rest,
    executed (emitted (invoke (scripted 0 []) (has_table "orders" (Some "  "))) [])
    = [(q, VStr "main" :: rest)].
Proof.
  apply (blank_schema_is_bound_to_main
           (scripted 0 []) (has_table "orders" (Some "  ")) []).
  - intros s. discriminate.
  - simpl. repeat constructor.
  - reflexivity.
Defined.

(** C2 as stated fails on [get_temp_view_names]: called with no schema on a
    connection that never raises, it executes its statement with an empty
    parameter list, so "main" is not bound. *)
Lemma temp_view_names_do_not_bind_main :
  executed (emitted (invoke (scripted 0 []) (get_temp_view_names None)) [])
  = [(queries.get_temp_views, [])]
  /\ ~ (forall conn op h,
          blank (schema_argument op) ->
          cursor conn h = Return tt ->
          exists q rest,
            executed (emitted (invoke conn op) h) = [(q, VStr "main" :: rest)]).
Proof.
  split; [reflexivity|].
  intros H.
  destruct (H (scripted 0 []) (get_temp_view_names None) [] I eq_refl)
    as (q & rest & Hq).
  discriminate Hq.
Qed.

(** ** Temporary tables and views *)

Lemma temp_view_names_executed (conn : DBAPIConnection)
  (schema : option string) (h : list event) :
  executed (emitted (RadioDuckDialect.get_temp_view_names conn schema) h)
  = match cursor conn h with
    | Return _ => [(queries.get_temp_views, [])]
    | Raise _ => []
    end.
Proof.
  unfold emitted; unfold_method.
  destruct (cursor conn h) as [[]|?];
    answer_calls; cbn [fst]; rewrite <- ?app_assoc, drop_app_length;
    reflexivity.
Qed.

Lemma temp_table_names_executed (conn : DBAPIConnection)
  (schema : option string) (h : list event) :
  executed (emitted (RadioDuckDialect.get_temp_table_names conn schema) h)
  = match cursor conn h with
    | Return _ =>
        [(queries.get_temp_tables,
          [VStr (RadioDuckDialect.schema_or_main schema)])]
    | Raise _ => []
    end.
Proof.
  unfold emitted; unfold_method.
  destruct (cursor conn h) as [[]|?];
    answer_calls; cbn [fst]; rewrite <- ?app_assoc, drop_app_length;
    reflexivity.
Qed.

(** C3, amended: [get_temp_view_names] executes its statement with an empty
    parameter list, and [get_temp_table_names] executes its statement with
    one parameter, the schema argument or "main" when that is blank; neither
    executes anything when no cursor is obtained. *)
Theorem temp_statements_parameters :
  forall (conn : DBAPIConnection) (schema : option string) (h : list event),
    executed (emitted (RadioDuckDialect.get_temp_view_names conn schema) h)
    = match cursor conn h with
      | Return _ => [(queries.get_temp_views, [])]
      | Raise _ => []
      end
    /\ executed (emitted (RadioDuckDialect.get_temp_table_names conn schema) h)
       = match cursor conn h with
         | Return _ =>
             [(queries.get_temp_tables,
               [VStr (RadioDuckDialect.schema_or_main schema)])]
         | Raise _ => []
         end.
Proof.
  intros conn schema h.
  split; [apply temp_view_names_executed|apply temp_table_names_executed].
Qed.

(** C3 as stated fails on [get_temp_table_names]: called with the schema
    "analytics" it binds that schema as the parameter of its statement. *)
Lemma temp_table_names_bind_the_schema :
  executed (emitted (RadioDuckDialect.get_temp_table_names
                       (scripted 0 []) (Some "analytics")) [])
  = [(queries.get_temp_tables, [VStr "analytics"])]
  /\ ~ (forall conn schema h,
          Forall (fun qp => snd qp = [])
            (executed (emitted (RadioDuckDialect.get_temp_table_names
                                  conn schema) h))).
Proof.
  split; [reflexivity|].
  intros H.
  specialize (H (scripted 0 []) (Some "analytics") []).
  inversion H as [|? ? Hps _]. discriminate Hps.
Qed.

(** C10: [get_temp_view_names] runs the same way for any two schema
    arguments: same log and same outcome.  When a cursor is obtained it
    executes the temporary-views statement with an empty parameter list, and
    when it returns, it returns the fetched rows flattened. *)
Theorem temp_view_names_ignore_the_schema :
  forall (conn : DBAPIConnection) (h : list event) (s1 s2 : option string),
    RadioDuckDialect.get_temp_view_names conn s1 h
    = RadioDuckDialect.get_temp_view_names conn s2 h
    /\ executed (emitted (RadioDuckDialect.get_temp_view_names conn s1) h)
       = match cursor conn h with
         | Return _ => [(queries.get_temp_views, [])]
         | Raise _ => []
         end
    /\ (forall l,
          snd (RadioDuckDialect.get_temp_view_names conn s1 h) = Return l ->
          exists rows,
            fetchall conn (h ++ [cursor_call true;
                                 execute_call queries.get_temp_views []])
            = Return rows
            /\ l = concat rows).
Proof.
  intros conn h s1 s2. split; [reflexivity|]. split.
  - apply temp_view_names_executed.
  - intros l. unfold_method.
    destruct (cursor conn h) as [[]|?]; [|discriminate].
    rewrite <- !app_assoc. simpl app.
    answer_calls; cbn [snd]; intros Hl; inversion Hl; subst; eauto.
Qed.

Lemma temp_view_names_ignore_the_schema_witness :
  exists rows,
    fetchall (scripted 0 [[VStr "v1"]; [VStr "v2"]])
      ([] ++ [cursor_call true; execute_call queries.get_temp_views []])
    = Return rows
    /\ [VStr "v1"; VStr "v2"] = concat rows.
Proof.
  pose proof (temp_view_names_ignore_the_schema
                (scripted 0 [[VStr "v1"]; [VStr "v2"]]) []
                (Some "analytics") None) as (_ & _ & H).
  apply H. reflexivity.
Defined.

(** ** Existence checks *)

(** C4: [has_table], [has_index] and [has_sequence] execute one statement
    and, whenever they return, return [True] exactly when the row count
    reported after that statement is 1; on a connection that raises nowhere
    they do return. *)
Theorem has_methods_return_rowcount_is_1 :
  forall (conn : DBAPIConnection) (op : introspection) (h : list event),
    existence_check op = true ->
    (forall a,
       snd (invoke conn op h) = Return a ->
       exists q ps b,
         a = boolean b
         /\ executed (emitted (invoke conn op) h) = [(q, ps)]
         /\ (b = true <->
             rowcount conn (h ++ [cursor_call true; execute_call q ps]) = 1))
    /\ (error_free conn -> exists b, snd (invoke conn op h) = Return (boolean b)).
Proof.
  intros conn op h Hop.
  destruct op; try discriminate Hop; clear Hop; (split; [intros a|intros (Hc & He & Hx)]).
  all: unfold emitted; unfold_method.
  all: try (rewrite Hc, He, Hx; cbn; eauto).
  all: destruct (cursor conn h) as [[]|?]; [|discriminate].
  all: rewrite <- ?app_assoc; simpl app.
  all: answer_calls; cbn [fst snd]; try discriminate.
  all: intros Ha; inversion Ha; subst; do 3 eexists.
  all: rewrite <- ?app_assoc, drop_app_length.
  all: split; [reflexivity|]; split; [reflexivity|]; apply Z.eqb_eq.
Qed.

Lemma has_methods_return_rowcount_is_1_witness :
  exists b, snd (invoke (scripted 1 []) (has_table "orders" None) [])
            = Return (boolean b).
Proof.
  apply (has_methods_return_rowcount_is_1
           (scripted 1 []) (has_table "orders" None) [] eq_refl).
  repeat split.
Defined.

(** ** Missing rows *)

Lemma constraint_record_of_row (name column_names : pyval) (rest : list pyval) :
  RadioDuckDialect.constraint_record (name :: column_names :: rest)
  = Return {[ "name" := name; "column_names" := column_names ]}.
Proof. reflexivity. Qed.

Lemma getitem_first (v : pyval) (rest : list pyval) :
  getitem (v :: rest) 0 = Return v.
Proof. reflexivity. Qed.

(** C6: on a connection that raises nowhere, [get_pk_constraint] returns
    the empty list when [fetchone] gives no row and the one-element list
    holding [{name, column_names}] when it gives a row; [get_view_definition]
    returns the empty string when [fetchone] gives no row and the first
    column of the row otherwise. *)
Theorem missing_row_is_an_empty_result :
  forall (conn : DBAPIConnection) (h : list event) (name : string)
         (schema : option string),
    error_free conn ->
    let pk_log :=
      h ++ [cursor_call true;
            execute_call queries.get_constraints
              [VStr (RadioDuckDialect.schema_or_main schema); VStr name;
               VStr "PRIMARY KEY"]] in
    let view_log :=
      h ++ [cursor_call true;
            execute_call queries.get_view_sql
              [VStr (RadioDuckDialect.schema_or_main schema); VStr name]] in
    (fetchone conn pk_log = Return None ->
     snd (RadioDuckDialect.get_pk_constraint conn name schema h) = Return [])
    /\ (forall pk cols rest,
          fetchone conn pk_log = Return (Some (pk :: cols :: rest)) ->
          snd (RadioDuckDialect.get_pk_constraint conn name schema h)
          = Return [ {[ "name" := pk; "column_names" := cols ]} ])
    /\ (fetchone conn view_log = Return None ->
        snd (RadioDuckDialect.get_view_definition conn name schema h)
        = Return (VStr ""))
    /\ (forall sql rest,
          fetchone conn view_log = Return (Some (sql :: rest)) ->
          snd (RadioDuckDialect.get_view_definition conn name schema h)
          = Return sql).
Proof.
  intros conn h name schema (Hc & He & Hx) pk_log view_log.
  subst pk_log view_log.
  repeat split; intros; unfold_method;
    rewrite Hc, He; cbn beta iota zeta;
    rewrite <- !app_assoc; simpl app;
    rewrite H; rewrite ?constraint_record_of_row, ?getitem_first;
    cbn beta iota zeta delta [outcome_bind]; rewrite Hx; reflexivity.
Qed.

Lemma missing_row_is_an_empty_result_witness :
  snd (RadioDuckDialect.get_pk_constraint (scripted 0 []) "orders" None [])
  = Return []
  /\ snd (RadioDuckDialect.get_view_definition
            (scripted 1 [[VStr "SELECT 1"]]) "v" (Some "s") [])
     = Return (VStr "SELECT 1").
Proof.
  split.
  - apply (missing_row_is_an_empty_result (scripted 0 []) [] "orders" None);
      [repeat split|reflexivity].
  - apply (missing_row_is_an_empty_result
             (scripted 1 [[VStr "SELECT 1"]]) [] "v" (Some "s")) with (rest := []);
      [repeat split|reflexivity].
Defined.

(** ** The regular expression against its reading in words *)

Lemma lazy_group_some (s g : string) :
  re.lazy_group s = Some g ->
  exists post, s = g +:+ ")" +:+ post
               /\ (")"%char ∉ pystr.chars g) /\ (re.newline ∉ pystr.chars g).
Proof.
  revert g. induction s as [|c r IH]; intros g; simpl; [discriminate|].
  destruct (Ascii.eqb c ")") eqn:E1.
  - apply Ascii.eqb_eq in E1. subst c. intros [= <-]. exists r.
    split; [reflexivity|]. split; apply not_elem_of_nil.
  - destruct (Ascii.eqb c re.newline) eqn:E2; [discriminate|].
    destruct (re.lazy_group r) as [g'|]; [|discriminate].
    simpl. intros [= <-].
    destruct (IH g' eq_refl) as (post & -> & H1 & H2).
    exists post. split; [reflexivity|].
    apply Ascii.eqb_neq in E1, E2.
    simpl. split; apply not_elem_of_cons; auto.
Qed.

Lemma lazy_group_complete (g post : string) :
  ")"%char ∉ pystr.chars g -> re.newline ∉ pystr.chars g ->
  re.lazy_group (g +:+ ")" +:+ post) = Some g.
Proof.
  induction g as [|c g IH]; simpl pystr.chars; intros H1 H2; [reflexivity|].
  apply not_elem_of_cons in H1 as [H1 H1'], H2 as [H2 H2'].
  change (re.lazy_group (String c (g +:+ ")" +:+ post)) = Some (String c g)).
  simpl. apply not_eq_sym, Ascii.eqb_neq in H1, H2.
  rewrite H1, H2, IH by assumption. reflexivity.
Qed.

Lemma group_at_empty (pre g post : string) : ~ group_at "" pre g post.
Proof. intros [H _]. destruct pre; discriminate H. Qed.

Lemma group_at_cons (c : ascii) (r pre g post : string) :
  group_at (String c r) pre g post ->
  (pre = "" /\ c = "("%char /\ re.lazy_group r = Some g)
  \/ (exists pre', pre = String c pre' /\ group_at r pre' g post).
Proof.
  intros (H & H1 & H2). destruct pre as [|c' pre'].
  - left. injection H as -> ->. split; [reflexivity|]. split; [reflexivity|].
    apply lazy_group_complete; assumption.
  - right. injection H as <- ->. exists pre'. split; [reflexivity|].
    split; [reflexivity|]. auto.
Qed.

Lemma group_at_later (c : ascii) (r pre g post : string) :
  group_at r pre g post -> group_at (String c r) (String c pre) g post.
Proof. intros (-> & H1 & H2). split; [reflexivity|]. auto. Qed.

Lemma first_group_later (c : ascii) (r g : string) :
  (c <> "("%char \/ re.lazy_group r = None) ->
  first_group r g -> first_group (String c r) g.
Proof.
  intros Hc (pre & post & Hat & Hmin).
  exists (String c pre), post. split; [apply group_at_later, Hat|].
  intros pre' g' post' H'.
  apply group_at_cons in H' as [(_ & Hp & Hl)|(pre'' & -> & H'')].
  - destruct Hc as [Hc|Hc]; [contradiction|congruence].
  - simpl. apply le_n_S. eauto.
Qed.

Lemma no_group_later (c : ascii) (r : string) :
  (c <> "("%char \/ re.lazy_group r = None) ->
  no_group r -> no_group (String c r).
Proof.
  intros Hc Hr pre g post H.
  apply group_at_cons in H as [(_ & Hp & Hl)|(pre' & -> & H')].
  - destruct Hc as [Hc|Hc]; [contradiction|congruence].
  - exact (Hr _ _ _ H').
Qed.

(** What [re.search] finds is the first parenthesized group. *)
Lemma search_some (s g : string) : re.search s = Some g -> first_group s g.
Proof.
  induction s as [|c r IH]; simpl; [discriminate|].
  destruct (Ascii.eqb c "(") eqn:E.
  - apply Ascii.eqb_eq in E. subst c.
    destruct (re.lazy_group r) as [g'|] eqn:El.
    + intros [= ->].
      destruct (lazy_group_some _ _ El) as (post & -> & H1 & H2).
      exists "", post. split; [split; [reflexivity|auto]|].
      intros. simpl. lia.
    + intros H. apply first_group_later; auto.
  - apply Ascii.eqb_neq in E. intros H. apply first_group_later; auto.
Qed.

(** When [re.search] finds nothing there is no parenthesized group. *)
Lemma search_none (s : string) : re.search s = None -> no_group s.
Proof.
  induction s as [|c r IH]; simpl.
  - intros _ pre g post. apply group_at_empty.
  - destruct (Ascii.eqb c "(") eqn:E.
    + destruct (re.lazy_group r) eqn:El; [discriminate|].
      intros H. apply no_group_later; auto.
    + apply Ascii.eqb_neq in E. intros H. apply no_group_later; auto.
Qed.

(** A group after a prefix without opening parenthesis is the one found. *)
Lemma search_after_prefix (pre g post : string) :
  "("%char ∉ pystr.chars pre ->
  ")"%char ∉ pystr.chars g -> re.newline ∉ pystr.chars g ->
  re.search (pre +:+ "(" +:+ g +:+ ")" +:+ post) = Some g.
Proof.
  intros Hpre H1 H2. induction pre as [|c pre IH].
  - change (re.search (String "(" (g +:+ ")" +:+ post)) = Some g).
    simpl. rewrite lazy_group_complete by assumption. reflexivity.
  - simpl in Hpre. apply not_elem_of_cons in Hpre as [Hc Hpre].
    change (re.search (String c (pre +:+ "(" +:+ g +:+ ")" +:+ post)) = Some g).
    simpl. apply not_eq_sym, Ascii.eqb_neq in Hc. rewrite Hc. auto.
Qed.

(** ** Index records *)

Lemma index_record_of_row (name sql unique : pyval) (rest : list pyval) :
  RadioDuckDialect.index_record (name :: sql :: unique :: rest)
  = Return {[ "name" := name; "sql" := sql; "unique" := unique ]}.
Proof. reflexivity. Qed.

(** The columns that the loop body stores for a creation SQL. *)
Lemma add_column_names_of_record (name unique : pyval) (sql : string) :
  RadioDuckDialect.add_column_names
    {[ "name" := name; "sql" := VStr sql; "unique" := unique ]}
  = Return {[ "name" := name; "unique" := unique;
              "column_names" :=
                VList (VStr <$> match re.search sql with
                                | Some g => pystr.strip <$> pystr.split "," g
                                | None => []
                                end) ]}.
Proof.
  unfold RadioDuckDialect.add_column_names.
  rewrite lookup_insert_ne by discriminate.
  rewrite lookup_insert_ne by discriminate.
  rewrite lookup_insert_eq.
  destruct (re.search sql) as [g|]; f_equal; apply map_eq; intros k;
    repeat (rewrite ?lookup_delete, ?lookup_insert, ?lookup_empty;
            case_decide; subst; try discriminate; try congruence; try reflexivity).
Qed.

Lemma lookup_sql_absent (name unique columns : pyval) :
  ({[ "name" := name; "unique" := unique; "column_names" := columns ]}
     : gmap string pyval) !! "sql" = None.
Proof. reflexivity. Qed.

Lemma index_row_described (name unique : pyval) (sql : string) (rest : list pyval) :
  exists mp,
    RadioDuckDialect.add_column_names
      {[ "name" := name; "sql" := VStr sql; "unique" := unique ]} = Return mp
    /\ index_described (name :: VStr sql :: unique :: rest) mp.
Proof.
  eexists. split; [apply add_column_names_of_record|].
  exists name, sql, unique, rest.
  exists (match re.search sql with
          | Some g => pystr.strip <$> pystr.split "," g
          | None => []
          end).
  split; [reflexivity|]. split; [|split; [reflexivity|split]].
  - destruct (re.search sql) as [g|] eqn:E.
    + left. exists g. split; [apply search_some, E|reflexivity].
    + right. split; [apply search_none, E|reflexivity].
  - apply lookup_sql_absent.
  - intros pre post Hpre ->.
    change (pre +:+ "(col_a, col_b)" +:+ post)
      with (pre +:+ "(" +:+ "col_a, col_b" +:+ ")" +:+ post).
    rewrite search_after_prefix; [reflexivity|exact Hpre| |];
      rewrite list_elem_of_In; simpl; intros H;
      repeat (destruct H as [H|H]; [discriminate H|]); exact H.
Qed.

Lemma index_rows_described (rows : list (list pyval)) :
  Forall index_row rows ->
  exists maps recs,
    comprehension RadioDuckDialect.index_record rows = Return maps
    /\ comprehension RadioDuckDialect.add_column_names maps = Return recs
    /\ Forall2 index_described rows recs.
Proof.
  induction 1 as [|row rows (name & sql & unique & rest & ->) _ IH].
  - exists [], []. repeat split. constructor.
  - destruct IH as (maps & recs & Hm & Hr & Hd).
    destruct (index_row_described name unique sql rest) as (mp & Hmp & Hdesc).
    exists ({[ "name" := name; "sql" := VStr sql; "unique" := unique ]} :: maps),
           (mp :: recs).
    split; [|split].
    + cbn [comprehension]. rewrite index_record_of_row, Hm. reflexivity.
    + cbn [comprehension]. rewrite Hmp, Hr. reflexivity.
    + constructor; assumption.
Qed.

(** C5, amended: on a connection that raises nowhere and serves rows
    [name, sql, unique] for the index statement, [get_indexes] returns one
    record per row, in order, holding the name, the unique flag and
    [column_names]: the comma-separated, trimmed pieces of the first
    parenthesized group of [sql] that holds no newline, so ["col_a"; "col_b"]
    for a creation SQL whose first parenthesis opens "(col_a, col_b)", and
    the empty list when [sql] has no such group.  No record has a "sql"
    key. *)
Theorem get_indexes_derives_column_names :
  forall (conn : DBAPIConnection) (h : list event) (table_name : string)
         (schema : option string) (rows : list (list pyval)),
    error_free conn ->
    fetchall conn
      (h ++ [cursor_call true;
             execute_call queries.get_indexes
               [VStr (RadioDuckDialect.schema_or_main schema);
                VStr table_name]])
    = Return rows ->
    Forall index_row rows ->
    exists recs,
      snd (RadioDuckDialect.get_indexes conn table_name schema h) = Return recs
      /\ Forall2 index_described rows recs.
Proof.
  intros conn h table_name schema rows (Hc & He & Hx) Hrows Hshape.
  destruct (index_rows_described rows Hshape) as (maps & recs & Hm & Hr & Hd).
  exists recs. split; [|exact Hd].
  unfold_method. rewrite Hc, He. cbn beta iota zeta.
  rewrite <- !app_assoc. simpl app.
  rewrite Hrows, Hm. cbn beta iota zeta.
  rewrite Hr, Hx. reflexivity.
Qed.

Lemma get_indexes_derives_column_names_witness :
  exists recs,
    snd (RadioDuckDialect.get_indexes
           (scripted 2
              [[VStr "idx_ab"; VStr "CREATE INDEX idx_ab ON t (col_a, col_b);";
                VBool false];
               [VStr "idx_x"; VStr "CREATE INDEX idx_x"; VBool true]])
           "t" None [])
    = Return recs
    /\ Forall2 index_described
         [[VStr "idx_ab"; VStr "CREATE INDEX idx_ab ON t (col_a, col_b);";
           VBool false];
          [VStr "idx_x"; VStr "CREATE INDEX idx_x"; VBool true]]
         recs.
Proof.
  apply (get_indexes_derives_column_names
           (scripted 2
              [[VStr "idx_ab"; VStr "CREATE INDEX idx_ab ON t (col_a, col_b);";
                VBool false];
               [VStr "idx_x"; VStr "CREATE INDEX idx_x"; VBool true]])
           [] "t" None).
  - repeat split.
  - reflexivity.
  - repeat constructor; unfold index_row; eauto.
Defined.

Example get_indexes_example :
  snd (RadioDuckDialect.get_indexes
         (scripted 2
            [[VStr "idx_ab"; VStr "CREATE INDEX idx_ab ON t (col_a, col_b);";
              VBool false];
             [VStr "idx_x"; VStr "CREATE INDEX idx_x"; VBool true]])
         "t" None [])
  = Return [ {[ "name" := VStr "idx_ab"; "unique" := VBool false;
                "column_names" := VList [VStr "col_a"; VStr "col_b"] ]};
             {[ "name" := VStr "idx_x"; "unique" := VBool true;
                "column_names" := VList [] ]} ].
Proof. vm_compute. reflexivity. Qed.

Lemma stated_group_after_prefix (pre0 rest pre g post : string) :
  "("%char ∉ pystr.chars pre0 ->
  stated_group_at (pre0 +:+ rest) pre g post ->
  (String.length pre0 <= String.length pre)%nat.
Proof.
  revert pre. induction pre0 as [|c pre0 IH]; intros pre Hc [H Hg]; simpl; [lia|].
  simpl in Hc. apply not_elem_of_cons in Hc as [Hc Hc'].
  destruct pre as [|c' pre].
  - injection H as -> _. contradiction.
  - injection H as <- H. simpl. apply le_n_S.
    apply IH; [exact Hc'|]. split; assumption.
Qed.

(** C5 as stated fails when the parenthesized column list spans two lines:
    the text between the first opening parenthesis and the next closing one
    is "col_a,<newline>col_b", whose trimmed pieces are the two column names,
    but the pattern does not match across the newline and [get_indexes]
    stores the empty list. *)
Lemma group_across_lines_is_not_extracted :
  let sql := "CREATE INDEX i ON t (col_a," +:+ String re.newline "col_b)" in
  let g := "col_a," +:+ String re.newline "col_b" in
  stated_first_group sql g
  /\ pystr.strip <$> pystr.split "," g = ["col_a"; "col_b"]
  /\ snd (RadioDuckDialect.get_indexes
            (scripted 1 [[VStr "i"; VStr sql; VBool false]]) "t" None [])
     = Return [ {[ "name" := VStr "i"; "unique" := VBool false;
                   "column_names" := VList [] ]} ].
Proof.
  cbv zeta. split; [|split].
  - exists "CREATE INDEX i ON t ", "". split.
    + split; [reflexivity|].
      rewrite list_elem_of_In. vm_compute. intros H.
      repeat (destruct H as [H|H]; [discriminate H|]). exact H.
    + intros pre' g' post' H.
      apply (stated_group_after_prefix "CREATE INDEX i ON t "
               ("(col_a," +:+ String re.newline "col_b)") pre' g' post');
        [|exact H].
      rewrite list_elem_of_In. vm_compute. intros Hin.
      repeat (destruct Hin as [Hin|Hin]; [discriminate Hin|]). exact Hin.
  - reflexivity.
  - vm_compute. reflexivity.
Qed.

(** ** The model of [str.split] and [str.strip] *)

Lemma split_not_empty (sep : ascii) (s : string) : pystr.split sep s <> [].
Proof.
  induction s as [|c r IH]; simpl; [discriminate|].
  destruct (Ascii.eqb c sep); [discriminate|].
  destruct (pystr.split sep r); [contradiction|discriminate].
Qed.

(** Joining the pieces with the separator gives the string back. *)
Lemma split_join (sep : ascii) (s : string) :
  String.concat (String sep "") (pystr.split sep s) = s.
Proof.
  induction s as [|c r IH]; [reflexivity|]. simpl pystr.split.
  destruct (Ascii.eqb c sep) eqn:E.
  - apply Ascii.eqb_eq in E. subst c.
    pose proof (split_not_empty sep r) as Hne.
    destruct (pystr.split sep r) as [|p ps]; [contradiction|].
    change (String sep (String.concat (String sep "") (p :: ps)) = String sep r).
    rewrite IH. reflexivity.
  - pose proof (split_not_empty sep r) as Hne.
    destruct (pystr.split sep r) as [|p ps]; [contradiction|].
    rewrite <- IH. destruct ps; reflexivity.
Qed.

(** No piece holds the separator. *)
Lemma split_pieces (sep : ascii) (s : string) :
  Forall (fun piece => sep ∉ pystr.chars piece) (pystr.split sep s).
Proof.
  induction s as [|c r IH]; simpl.
  - repeat constructor. apply not_elem_of_nil.
  - destruct (Ascii.eqb c sep) eqn:E.
    + constructor; [apply not_elem_of_nil|exact IH].
    + apply Ascii.eqb_neq in E.
      destruct (pystr.split sep r) as [|p ps]; simpl.
      * repeat constructor. apply not_elem_of_cons. split; [auto|apply not_elem_of_nil].
      * inversion IH; subst. constructor; [|assumption].
        simpl. apply not_elem_of_cons. auto.
Qed.

(** [lstrip] removes a run of whitespace at the front and stops at the first
    character that is not whitespace. *)
Lemma lstrip_spec (s : string) :
  exists l, s = l +:+ pystr.lstrip s
            /\ Forall (fun c => pystr.isspace c = true) (pystr.chars l)
            /\ (forall c r, pystr.lstrip s = String c r -> pystr.isspace c = false).
Proof.
  induction s as [|c r (l & Hl & Hsp & Hfirst)]; simpl.
  - exists "". repeat split; [constructor|discriminate].
  - destruct (pystr.isspace c) eqn:Hc.
    + exists (String c l). split; [|split; [|exact Hfirst]].
      * change (String c r = String c (l +:+ pystr.lstrip r)). rewrite <- Hl. reflexivity.
      * simpl. constructor; assumption.
    + exists "". split; [reflexivity|]. split; [constructor|].
      intros c' r' [= <- _]. exact Hc.
Qed.

(** [rstrip] removes a run of whitespace at the back and leaves a string
    that is empty or ends with a character that is not whitespace. *)
Lemma rstrip_spec (s : string) :
  exists r, s = pystr.rstrip s +:+ r
            /\ Forall (fun c => pystr.isspace c = true) (pystr.chars r)
            /\ (pystr.rstrip s = ""
                \/ exists p c, pystr.rstrip s = p +:+ String c ""
                               /\ pystr.isspace c = false).
Proof.
  induction s as [|c s (r & Hr & Hsp & Hlast)]; simpl.
  - exists "". repeat split; [constructor|left; reflexivity].
  - destruct (pystr.rstrip s) as [|c' s'] eqn:E.
    + change ("" +:+ r) with r in Hr. subst r.
      destruct (pystr.isspace c) eqn:Hc.
      * exists (String c s). split; [reflexivity|].
        split; [simpl; constructor; assumption|left; reflexivity].
      * exists s. split; [reflexivity|]. split; [assumption|].
        right. exists "", c. split; [reflexivity|exact Hc].
    + exists r. split; [|split; [assumption|]].
      * change (String c s = String c (String c' s' +:+ r)). rewrite <- Hr. reflexivity.
      * right. destruct Hlast as [Hlast|(p & d & Hp & Hd)]; [discriminate|].
        exists (String c p), d. split; [|exact Hd].
        change (String c (String c' s') = String c (p +:+ String d "")).
        rewrite Hp. reflexivity.
Qed.

(** * Further properties *)

(** ** Disconnect detection *)

Lemma prefix_spec (needle hay : string) :
  String.prefix needle hay = true <-> exists post, hay = needle +:+ post.
Proof.
  revert hay. induction needle as [|c n IH]; intros hay.
  - split; [intros _; exists hay; reflexivity|destruct hay; reflexivity].
  - destruct hay as [|d hay]; simpl.
    + split; [discriminate|intros [post H]; discriminate H].
    + destruct (Ascii.ascii_dec c d) as [<-|Hne].
      * rewrite IH. split; intros [post H]; exists post.
        -- rewrite H. reflexivity.
        -- injection H as ->. reflexivity.
      * split; [discriminate|]. intros [post H]. injection H as <- _.
        contradiction.
Qed.

(** [needle in hay] holds exactly when [hay] is some text, then [needle],
    then some text. *)
Lemma contains_spec (needle hay : string) :
  pystr.contains needle hay = true
  <-> exists pre post, hay = pre +:+ needle +:+ post.
Proof.
  induction hay as [|c r IH].
  - change (pystr.contains needle "") with (String.prefix needle "" || false).
    rewrite orb_true_iff, prefix_spec. split.
    + intros [[post H]|H]; [|discriminate]. exists "", post. exact H.
    + intros (pre & post & H). left.
      destruct pre; [|discriminate H]. exists post. exact H.
  - change (pystr.contains needle (String c r))
      with (String.prefix needle (String c r) || pystr.contains needle r).
    rewrite orb_true_iff, prefix_spec, IH. split.
    + intros [[post H]|(pre & post & H)].
      * exists "", post. exact H.
      * exists (String c pre), post. rewrite H. reflexivity.
    + intros (pre & post & H). destruct pre as [|c' pre].
      * left. exists post. exact H.
      * right. injection H as _ ->. eauto.
Qed.

Lemma append_assoc (a b c : string) : (a +:+ b) +:+ c = a +:+ b +:+ c.
Proof.
  induction a as [|x a IH]; [reflexivity|].
  change (String x ((a +:+ b) +:+ c) = String x (a +:+ b +:+ c)).
  rewrite IH. reflexivity.
Qed.

(** X1: [is_disconnect] answers true exactly when an error is given and its
    text holds the marker somewhere; with no error it answers false,
    whatever the connection and the cursor. *)
Theorem is_disconnect_iff_marker_in_text :
  forall (error cursor_type : Type) (str : error -> string) (marker : string)
         (e : option error) (connection : DBAPIConnection)
         (cursor : cursor_type),
    RadioDuckDialect.is_disconnect str marker e connection cursor = true
    <-> exists err pre post, e = Some err /\ str err = pre +:+ marker +:+ post.
Proof.
  intros. unfold RadioDuckDialect.is_disconnect. destruct e as [err|].
  - rewrite contains_spec. split.
    + intros (pre & post & H). eauto.
    + intros (err' & pre & post & [= <-] & H). eauto.
  - split; [discriminate|]. intros (err & pre & post & H & _). discriminate H.
Qed.

(** X2: a disconnect stays detected when the text of the error is wrapped:
    if [is_disconnect] holds of an error, it holds of every error whose text
    embeds the text of the first. *)
Theorem is_disconnect_survives_wrapping :
  forall (error cursor_type : Type) (str : error -> string) (marker : string)
         (inner outer : error) (before after : string)
         (connection : DBAPIConnection) (cursor : cursor_type),
    RadioDuckDialect.is_disconnect str marker (Some inner) connection cursor
      = true ->
    str outer = before +:+ str inner +:+ after ->
    RadioDuckDialect.is_disconnect str marker (Some outer) connection cursor
      = true.
Proof.
  intros error cursor_type str marker inner outer before after connection
    cursor Hin Hout.
  unfold RadioDuckDialect.is_disconnect in *.
  apply contains_spec in Hin as (pre & post & Hin).
  apply contains_spec. exists (before +:+ pre), (post +:+ after).
  rewrite Hout, Hin, !append_assoc. reflexivity.
Qed.

Lemma is_disconnect_survives_wrapping_witness :
  RadioDuckDialect.is_disconnect (fun msg : string => msg) "closed"
    (Some "(ProgrammingError) connection closed, reconnect")
    (scripted 0 []) tt
  = true.
Proof.
  apply (is_disconnect_survives_wrapping string unit (fun msg => msg) "closed"
           "connection closed" "(ProgrammingError) connection closed, reconnect"
           "(ProgrammingError) " ", reconnect" (scripted 0 []) tt);
    reflexivity.
Defined.

(** ** Connection arguments, continued *)

(** X3: the keyword arguments of [create_connect_args] have exactly the keys
    of the translated components and of the query string, and with an empty
    query string they are the translated components. *)
Theorem create_connect_args_keys :
  forall (url : RadioDuckDialect.URL),
    dom (snd (RadioDuckDialect.create_connect_args url))
    = dom (RadioDuckDialect.translate_connect_args url)
      ∪ dom (RadioDuckDialect.query url)
    /\ (RadioDuckDialect.query url = ∅ ->
        snd (RadioDuckDialect.create_connect_args url)
        = RadioDuckDialect.translate_connect_args url).
Proof.
  intros url. unfold RadioDuckDialect.create_connect_args,
    RadioDuckDialect.update. simpl. split.
  - rewrite dom_union_L. apply union_comm_L.
  - intros ->. apply (left_id_L ∅ (∪)).
Qed.

Lemma create_connect_args_keys_witness :
  snd (RadioDuckDialect.create_connect_args
         {| RadioDuckDialect.translate_connect_args :=
              {[ "host" := VStr "localhost" ]};
            RadioDuckDialect.query := ∅ |})
  = {[ "host" := VStr "localhost" ]}.
Proof.
  exact (proj2 (create_connect_args_keys
                  {| RadioDuckDialect.translate_connect_args :=
                       {[ "host" := VStr "localhost" ]};
                     RadioDuckDialect.query := ∅ |}) eq_refl).
Defined.

(** ** Type aliases *)



(** ** Schema normalisation, continued *)

Lemma main_is_not_blank : ~ blank (Some "main").
Proof. unfold blank. simpl. intros H. inversion H as [|? ? Hm _]. discriminate Hm. Qed.

Lemma schema_or_main_is_not_blank (schema : option string) :
  ~ blank (Some (RadioDuckDialect.schema_or_main schema)).
Proof.
  destruct schema as [s|]; [|exact main_is_not_blank].
  unfold RadioDuckDialect.schema_or_main.
  destruct (String.eqb "" (pystr.strip s)) eqn:E; [exact main_is_not_blank|].
  apply String.eqb_neq in E. unfold blank. rewrite <- strip_empty_iff. congruence.
Qed.

(** X5: for every method of the table other than [get_temp_view_names], a
    schema argument that is not blank is bound as it was given, surrounding
    whitespace included, as the first parameter of the one statement
    executed. *)
Theorem given_schema_is_bound_untrimmed :
  forall (conn : DBAPIConnection) (op : introspection) (h : list event)
         (s : string),
    (forall s', op <> get_temp_view_names s') ->
    schema_argument op = Some s ->
    ~ blank (Some s) ->
    cursor conn h = Return tt ->
    exists q rest,
      executed (emitted (invoke conn op) h) = [(q, VStr s :: rest)].
Proof.
  intros conn op h s Hop Hs Hnb Hcursor.
  destruct op; simpl in Hs;
    try (exfalso; eapply Hop; reflexivity);
    subst schema;
    do 2 eexists; unfold emitted; unfold_method;
    rewrite (schema_or_main_not_blank _ Hnb), Hcursor;
    answer_calls; cbn [fst]; rewrite <- ?app_assoc, drop_app_length;
    reflexivity.
Qed.

Lemma given_schema_is_bound_untrimmed_witness :
  exists q rest,
    executed (emitted (invoke (scripted 0 []) (get_columns "orders" (Some " sales "))) [])
    = [(q, VStr " sales " :: rest)].
Proof.
  apply (given_schema_is_bound_untrimmed
           (scripted 0 []) (get_columns "orders" (Some " sales ")) [] " sales ").
  - intros s'. discriminate.
  - reflexivity.
  - unfold blank. simpl. intros H.
    inversion H as [|? ? _ H1]. inversion H1 as [|? ? Hs _]. discriminate Hs.
  - reflexivity.
Defined.

(** X6: the schema that the guard hands on is never blank, and putting it
    through the guard again changes nothing. *)
Theorem normalised_schema_is_stable :
  forall (schema : option string),
    ~ blank (Some (RadioDuckDialect.schema_or_main schema))
    /\ RadioDuckDialect.schema_or_main
         (Some (RadioDuckDialect.schema_or_main schema))
       = RadioDuckDialect.schema_or_main schema.
Proof.
  intros schema. split; [apply schema_or_main_is_not_blank|].
  apply schema_or_main_not_blank, schema_or_main_is_not_blank.
Qed.

(** ** The calls of a method *)

(** X7: a method that obtains a cursor makes exactly these calls: one
    [execute], then at most one fetch, then [close]; [has_table],
    [has_index] and [has_sequence] never fetch. *)
Theorem one_statement_and_at_most_one_fetch :
  forall (conn : DBAPIConnection) (op : introspection) (h : list event),
    cursor conn h = Return tt ->
    exists q ps fetches,
      emitted (invoke conn op) h
      = cursor_call true :: execute_call q ps :: fetches ++ [close_call]
      /\ (fetches = [] \/ fetches = [fetchall_call] \/ fetches = [fetchone_call])
      /\ (existence_check op = true -> fetches = []).
Proof.
  intros conn op h Hcursor.
  destruct op; unfold emitted; unfold_method; rewrite Hcursor;
    answer_calls; cbn [fst]; rewrite <- ?app_assoc, drop_app_length;
    do 2 eexists;
    first [ exists []; split; [reflexivity|]
          | exists [fetchall_call]; split; [reflexivity|]
          | exists [fetchone_call]; split; [reflexivity|] ];
    (split; [auto|]); simpl; first [discriminate|reflexivity].
Qed.

Lemma one_statement_and_at_most_one_fetch_witness :
  exists q ps fetches,
    emitted (invoke (scripted 1 []) (has_index "orders" "idx" None)) []
    = cursor_call true :: execute_call q ps :: fetches ++ [close_call]
    /\ (fetches = [] \/ fetches = [fetchall_call] \/ fetches = [fetchone_call])
    /\ (existence_check (has_index "orders" "idx" None) = true -> fetches = []).
Proof.
  apply (one_statement_and_at_most_one_fetch
           (scripted 1 []) (has_index "orders" "idx" None) []).
  reflexivity.
Defined.

(** ** Exceptions of the connection *)

(** X8: when [execute] raises and [close] returns, the method raises the
    exception of [execute] unchanged, and between [execute] and [close] it
    calls nothing: no fetch is attempted. *)
Theorem execute_error_propagates :
  forall (conn : DBAPIConnection) (op : introspection) (h : list event)
         (e : exception),
    cursor conn h = Return tt ->
    (forall h' q ps, execute conn h' q ps = Raise e) ->
    (forall h', close conn h' = Return tt) ->
    snd (invoke conn op h) = Raise e
    /\ exists q ps,
         emitted (invoke conn op) h
         = [cursor_call true; execute_call q ps; close_call].
Proof.
  intros conn op h e Hc He Hx.
  destruct op; unfold emitted; unfold_method; rewrite Hc;
    cbn beta iota zeta; rewrite He; cbn beta iota zeta; rewrite Hx;
    cbn [fst snd]; (split; [reflexivity|]);
    rewrite <- ?app_assoc, drop_app_length; eauto.
Qed.

Lemma execute_error_propagates_witness :
  snd (invoke (refusing (Error "syntax error")) (get_table_names None) [])
  = Raise (Error "syntax error").
Proof.
  apply (execute_error_propagates
           (refusing (Error "syntax error")) (get_table_names None) []
           (Error "syntax error")); reflexivity.
Defined.

(** X9: when the fetch raises and [close] returns, every method that
    fetches raises the exception of the fetch unchanged. *)
Theorem fetch_error_propagates :
  forall (conn : DBAPIConnection) (op : introspection) (h : list event)
         (e : exception),
    error_free conn ->
    (forall h', fetchall conn h' = Raise e) ->
    (forall h', fetchone conn h' = Raise e) ->
    existence_check op = false ->
    snd (invoke conn op h) = Raise e.
Proof.
  intros conn op h e (Hc & He & Hx) Hall Hone Hop.
  destruct op; try discriminate Hop; unfold_method; rewrite Hc;
    cbn beta iota zeta; rewrite He; cbn beta iota zeta;
    rewrite ?Hall, ?Hone; cbn beta iota zeta; rewrite Hx; reflexivity.
Qed.

Lemma fetch_error_propagates_witness :
  snd (invoke (unreadable (Error "timeout")) (get_pk_constraint "orders" None) [])
  = Raise (Error "timeout").
Proof.
  apply (fetch_error_propagates
           (unreadable (Error "timeout")) (get_pk_constraint "orders" None) []
           (Error "timeout")); try reflexivity.
  repeat split.
Defined.

Lemma with_cursor_close_raises {A} conn (body : M A) (h : list event) e :
  cursor conn h = Return tt ->
  (forall h', close conn h' = Raise e) ->
  snd (with_cursor conn body h) = Raise e.
Proof.
  intros Hc Hx. unfold with_cursor, call_cursor, try_finally, call_close.
  rewrite Hc. destruct (body _) as [h1 r]. rewrite Hx. reflexivity.
Qed.

Lemma answering_propagates {A} (wrap : A -> answer) (m : M A) h e :
  snd (m h) = Raise e -> snd (answering wrap m h) = Raise e.
Proof.
  unfold answering, bind. destruct (m h) as [h1 [a|e']]; simpl;
    [discriminate|intros [= ->]; reflexivity].
Qed.

(** X10: when [close] raises, the method raises the exception of [close],
    whatever came before: a result that was ready is lost and an exception
    that was propagating is replaced. *)
Theorem close_error_replaces_the_outcome :
  forall (conn : DBAPIConnection) (op : introspection) (h : list event)
         (e : exception),
    cursor conn h = Return tt ->
    (forall h', close conn h' = Raise e) ->
    snd (invoke conn op h) = Raise e.
Proof.
  intros conn op h e Hc Hx.
  destruct op; apply answering_propagates, with_cursor_close_raises; assumption.
Qed.

Lemma close_error_replaces_the_outcome_witness :
  snd (invoke (unclosable (Error "gone") 1 []) (has_table "orders" None) [])
  = Raise (Error "gone").
Proof.
  apply (close_error_replaces_the_outcome
           (unclosable (Error "gone") 1 []) (has_table "orders" None) []
           (Error "gone")); reflexivity.
Defined.

(** ** Rows that do not fit *)

Lemma comprehension_return {A B} (f : A -> outcome B) (l : list A) (ys : list B) :
  comprehension f l = Return ys <-> Forall2 (fun x y => f x = Return y) l ys.
Proof.
  revert ys. induction l as [|x l IH]; intros ys; simpl.
  - split; [intros [= <-]; constructor|intros H; inversion H; reflexivity].
  - split.
    + destruct (f x) as [y|e] eqn:Ex; simpl; [|discriminate].
      destruct (comprehension f l) as [ys'|e]; simpl; [|discriminate].
      intros [= <-]. constructor; [exact Ex|]. apply IH. reflexivity.
    + intros H. inversion H as [|? y ? ys' Hx Hl]; subst.
      apply IH in Hl. rewrite Hx, Hl. reflexivity.
Qed.

Lemma comprehension_all_return {A B} (f : A -> outcome B) (P : A -> B -> Prop)
  (l : list A) :
  Forall (fun x => exists y, f x = Return y /\ P x y) l ->
  exists ys, comprehension f l = Return ys /\ Forall2 P l ys.
Proof.
  induction 1 as [|x l (y & Hy & Hp) _ (ys & Hys & Hall)].
  - exists []. split; [reflexivity|constructor].
  - exists (y :: ys). simpl. rewrite Hy, Hys. split; [reflexivity|].
    constructor; assumption.
Qed.

(** The first exception ends a comprehension; when the elements can raise
    one exception only, one failing element anywhere decides the outcome. *)
Lemma comprehension_raise {A B} (f : A -> outcome B) (l : list A) (e : exception) :
  Forall (fun x => forall e', f x = Raise e' -> e' = e) l ->
  Exists (fun x => exists e', f x = Raise e') l ->
  comprehension f l = Raise e.
Proof.
  intros Honly. induction 1 as [x l (e' & He)|x l _ IH]; simpl;
    inversion Honly as [|? ? Hx Hl]; subst.
  - rewrite He. rewrite (Hx _ He). reflexivity.
  - destruct (f x) as [y|e'] eqn:Ex; simpl.
    + rewrite (IH Hl). reflexivity.
    + rewrite (Hx _ eq_refl). reflexivity.
Qed.

Lemma constraint_record_reads : reads 2 RadioDuckDialect.constraint_record.
Proof.
  intros [|a [|b r]]; [right|right|left]; simpl; try (split; [lia|reflexivity]).
  split; [lia|]. eexists. split; reflexivity.
Qed.

Lemma check_record_reads : reads 2 RadioDuckDialect.check_record.
Proof.
  intros [|a [|b r]]; [right|right|left]; simpl; try (split; [lia|reflexivity]).
  split; [lia|]. eexists. split; reflexivity.
Qed.

Lemma column_record_reads : reads 4 RadioDuckDialect.column_record.
Proof.
  intros [|a [|b [|c [|d r]]]]; [right|right|right|right|left]; simpl;
    try (split; [lia|reflexivity]).
  split; [lia|]. eexists. split; reflexivity.
Qed.

Lemma index_record_reads : reads 3 RadioDuckDialect.index_record.
Proof.
  intros [|a [|b [|c r]]]; [right|right|right|left]; simpl;
    try (split; [lia|reflexivity]).
  split; [lia|]. eexists. split; reflexivity.
Qed.

Lemma reads_wide_rows w f (rows : list (list pyval)) :
  reads w f ->
  Forall (fun r => (w <= length r)%nat) rows ->
  exists recs,
    comprehension f rows = Return recs
    /\ Forall2 (fun r mp => mp !! "name" = r !! 0%nat) rows recs.
Proof.
  intros Hf Hrows. apply comprehension_all_return.
  eapply Forall_impl; [exact Hrows|]. intros r Hr. simpl in Hr.
  destruct (Hf r) as [(_ & mp & Hmp & Hname)|(Hshort & _)]; [eauto|lia].
Qed.

Lemma reads_short_row w f (rows : list (list pyval)) :
  reads w f ->
  Exists (fun r => (length r < w)%nat) rows ->
  comprehension f rows = Raise IndexError.
Proof.
  intros Hf Hrows. apply comprehension_raise.
  - apply Forall_forall. intros r _ e' He.
    destruct (Hf r) as [(_ & mp & Hmp & _)|(_ & Hr)]; congruence.
  - eapply Exists_impl; [exact Hrows|]. intros r Hr. simpl in Hr.
    destruct (Hf r) as [(Hwide & _)|(_ & Hraise)]; [lia|eauto].
Qed.

(** X11: on a connection that raises nowhere, [get_columns],
    [get_unique_constraints], [get_foreign_keys] and
    [get_check_constraints] return one record per fetched row, in the order
    of the rows, named by the first column of its row, as long as every row
    has the columns that the record reads (four for [get_columns], two for
    the others); further columns are ignored. *)
Theorem records_follow_the_rows :
  forall (conn : DBAPIConnection) (op : introspection) (h : list event)
         (w : nat) (rows : list (list pyval)),
    error_free conn ->
    (forall h', fetchall conn h' = Return rows) ->
    columns_read op = Some w ->
    Forall (fun r => (w <= length r)%nat) rows ->
    exists recs,
      snd (invoke conn op h) = Return (records recs)
      /\ Forall2 (fun r mp => mp !! "name" = r !! 0%nat) rows recs.
Proof.
  intros conn op h w rows (Hc & He & Hx) Hall Hw Hrows.
  destruct op; try discriminate Hw; injection Hw as <-.
  - destruct (reads_wide_rows _ _ rows column_record_reads Hrows) as (recs & Hr & H2).
    exists recs. split; [|exact H2]. unfold_method.
    rewrite Hc, He; cbn beta iota zeta. rewrite Hall, Hr; cbn beta iota zeta.
    rewrite Hx. reflexivity.
  - destruct (reads_wide_rows _ _ rows constraint_record_reads Hrows) as (recs & Hr & H2).
    exists recs. split; [|exact H2]. unfold_method.
    rewrite Hc, He; cbn beta iota zeta. rewrite Hall, Hr; cbn beta iota zeta.
    rewrite Hx. reflexivity.
  - destruct (reads_wide_rows _ _ rows constraint_record_reads Hrows) as (recs & Hr & H2).
    exists recs. split; [|exact H2]. unfold_method.
    rewrite Hc, He; cbn beta iota zeta. rewrite Hall, Hr; cbn beta iota zeta.
    rewrite Hx. reflexivity.
  - destruct (reads_wide_rows _ _ rows check_record_reads Hrows) as (recs & Hr & H2).
    exists recs. split; [|exact H2]. unfold_method.
    rewrite Hc, He; cbn beta iota zeta. rewrite Hall, Hr; cbn beta iota zeta.
    rewrite Hx. reflexivity.
Qed.

Lemma records_follow_the_rows_witness :
  exists recs,
    snd (invoke (scripted 2 [[VStr "id"; VStr "INTEGER"; VBool false; VNone];
                             [VStr "name"; VStr "VARCHAR"; VBool true; VNone;
                              VStr "extra"]])
           (get_columns "orders" None) [])
    = Return (records recs)
    /\ Forall2 (fun r mp => mp !! "name" = r !! 0%nat)
         [[VStr "id"; VStr "INTEGER"; VBool false; VNone];
          [VStr "name"; VStr "VARCHAR"; VBool true; VNone; VStr "extra"]]
         recs.
Proof.
  apply (records_follow_the_rows
           (scripted 2 [[VStr "id"; VStr "INTEGER"; VBool false; VNone];
                        [VStr "name"; VStr "VARCHAR"; VBool true; VNone;
                         VStr "extra"]])
           (get_columns "orders" None) [] 4%nat
           [[VStr "id"; VStr "INTEGER"; VBool false; VNone];
            [VStr "name"; VStr "VARCHAR"; VBool true; VNone; VStr "extra"]]).
  - repeat split.
  - reflexivity.
  - reflexivity.
  - repeat constructor.
Defined.

(** X12: on a connection that raises nowhere, one fetched row with fewer
    columns than the record reads makes [get_columns],
    [get_unique_constraints], [get_foreign_keys] and
    [get_check_constraints] raise [IndexError], wherever the row stands:
    no partial list is returned. *)
Theorem short_row_raises_index_error :
  forall (conn : DBAPIConnection) (op : introspection) (h : list event)
         (w : nat) (rows : list (list pyval)),
    error_free conn ->
    (forall h', fetchall conn h' = Return rows) ->
    columns_read op = Some w ->
    Exists (fun r => (length r < w)%nat) rows ->
    snd (invoke conn op h) = Raise IndexError.
Proof.
  intros conn op h w rows (Hc & He & Hx) Hall Hw Hrows.
  destruct op; try discriminate Hw; injection Hw as <-; unfold_method;
    rewrite Hc, He; cbn beta iota zeta; rewrite Hall;
    [rewrite (reads_short_row _ _ rows column_record_reads Hrows)
    |rewrite (reads_short_row _ _ rows constraint_record_reads Hrows)
    |rewrite (reads_short_row _ _ rows constraint_record_reads Hrows)
    |rewrite (reads_short_row _ _ rows check_record_reads Hrows)];
    cbn beta iota zeta; rewrite Hx; reflexivity.
Qed.

Lemma short_row_raises_index_error_witness :
  snd (invoke (scripted 2 [[VStr "uq_a"; VList [VStr "a"]]; [VStr "uq_b"]])
         (get_unique_constraints "orders" None) [])
  = Raise IndexError.
Proof.
  apply (short_row_raises_index_error
           (scripted 2 [[VStr "uq_a"; VList [VStr "a"]]; [VStr "uq_b"]])
           (get_unique_constraints "orders" None) [] 2%nat
           [[VStr "uq_a"; VList [VStr "a"]]; [VStr "uq_b"]]).
  - repeat split.
  - reflexivity.
  - reflexivity.
  - apply Exists_cons_tl, Exists_cons_hd. simpl. lia.
Defined.

Lemma add_column_names_on_built (name sql unique : pyval) :
  (exists text mp, sql = VStr text
     /\ RadioDuckDialect.add_column_names
          {[ "name" := name; "sql" := sql; "unique" := unique ]} = Return mp)
  \/ ((forall text, sql <> VStr text)
      /\ RadioDuckDialect.add_column_names
           {[ "name" := name; "sql" := sql; "unique" := unique ]}
         = Raise TypeError).
Proof.
  unfold RadioDuckDialect.add_column_names.
  rewrite lookup_insert_ne by discriminate.
  rewrite lookup_insert_ne by discriminate.
  rewrite lookup_insert_eq.
  destruct sql; try (right; split; [discriminate|reflexivity]).
  left. eauto.
Qed.

(** The dicts that the first comprehension of [get_indexes] builds. *)
Lemma index_maps_built (rows : list (list pyval)) :
  Forall (fun r => (3 <= length r)%nat) rows ->
  exists maps,
    comprehension RadioDuckDialect.index_record rows = Return maps
    /\ Forall2 (fun r mp => exists name sql unique rest,
                  r = name :: sql :: unique :: rest
                  /\ mp = {[ "name" := name; "sql" := sql; "unique" := unique ]})
         rows maps.
Proof.
  intros Hrows. apply comprehension_all_return.
  eapply Forall_impl; [exact Hrows|].
  intros [|a [|b [|c r]]] Hr; simpl in Hr; try lia.
  eexists. split; [reflexivity|]. eauto 6.
Qed.

Lemma index_maps_type_error (rows : list (list pyval))
  (maps : list (gmap string pyval)) :
  Forall2 (fun r mp => exists name sql unique rest,
             r = name :: sql :: unique :: rest
             /\ mp = {[ "name" := name; "sql" := sql; "unique" := unique ]})
    rows maps ->
  Exists (fun r => forall text, r !! 1%nat <> Some (VStr text)) rows ->
  comprehension RadioDuckDialect.add_column_names maps = Raise TypeError.
Proof.
  induction 1 as [|r mp rows maps (name & sql & unique & rest & -> & ->) _ IH];
    intros Hex; [inversion Hex|]. simpl.
  destruct (add_column_names_on_built name sql unique)
    as [(text & mp' & -> & Hmp)|(_ & Hmp)]; rewrite Hmp; simpl; [|reflexivity].
  inversion Hex as [? ? Hr|? ? Hr]; subst.
  - exfalso. apply (Hr text). reflexivity.
  - rewrite (IH Hr). reflexivity.
Qed.

(** X13: on a connection that raises nowhere, [get_indexes] raises
    [IndexError] as soon as one fetched row has fewer than three columns,
    even when another row holds a creation SQL that is not a string; when
    every row has three columns and one of them holds a creation SQL that is
    not a string, it raises [TypeError]. *)
Theorem get_indexes_row_errors :
  forall (conn : DBAPIConnection) (h : list event) (table_name : string)
         (schema : option string) (rows : list (list pyval)),
    error_free conn ->
    (forall h', fetchall conn h' = Return rows) ->
    (Exists (fun r => (length r < 3)%nat) rows ->
     snd (RadioDuckDialect.get_indexes conn table_name schema h)
     = Raise IndexError)
    /\ (Forall (fun r => (3 <= length r)%nat) rows ->
        Exists (fun r => forall text, r !! 1%nat <> Some (VStr text)) rows ->
        snd (RadioDuckDialect.get_indexes conn table_name schema h)
        = Raise TypeError).
Proof.
  intros conn h table_name schema rows (Hc & He & Hx) Hall. split.
  - intros Hshort. unfold_method.
    rewrite Hc, He; cbn beta iota zeta. rewrite Hall.
    rewrite (reads_short_row _ _ rows index_record_reads Hshort).
    cbn beta iota zeta. rewrite Hx. reflexivity.
  - intros Hwide Hbad.
    destruct (index_maps_built rows Hwide) as (maps & Hm & Hbuilt).
    unfold_method.
    rewrite Hc, He; cbn beta iota zeta. rewrite Hall, Hm. cbn beta iota zeta.
    rewrite (index_maps_type_error rows maps Hbuilt Hbad).
    cbn beta iota zeta. rewrite Hx. reflexivity.
Qed.

Lemma get_indexes_row_errors_witness :
  snd (RadioDuckDialect.get_indexes
         (scripted 2 [[VStr "idx_a"; VNone; VBool false]; [VStr "idx_b"]])
         "orders" None [])
  = Raise IndexError
  /\ snd (RadioDuckDialect.get_indexes
            (scripted 1 [[VStr "idx_a"; VNone; VBool false]]) "orders" None [])
     = Raise TypeError.
Proof.
  split.
  - apply (get_indexes_row_errors
             (scripted 2 [[VStr "idx_a"; VNone; VBool false]; [VStr "idx_b"]])
             [] "orders" None
             [[VStr "idx_a"; VNone; VBool false]; [VStr "idx_b"]]).
    + repeat split.
    + reflexivity.
    + apply Exists_cons_tl, Exists_cons_hd. simpl. lia.
  - apply (get_indexes_row_errors
             (scripted 1 [[VStr "idx_a"; VNone; VBool false]])
             [] "orders" None [[VStr "idx_a"; VNone; VBool false]]).
    + repeat split.
    + reflexivity.
    + repeat constructor.
    + apply Exists_cons_hd. intros text. discriminate.
Defined.

(** X14: on a connection that raises nowhere, a row served by [fetchone]
    that is too short raises [IndexError]: fewer than two columns for
    [get_pk_constraint], no column for [get_view_definition]. *)
Theorem short_fetched_row_raises_index_error :
  forall (conn : DBAPIConnection) (h : list event) (name : string)
         (schema : option string) (row : list pyval),
    error_free conn ->
    (forall h', fetchone conn h' = Return (Some row)) ->
    ((length row < 2)%nat ->
     snd (RadioDuckDialect.get_pk_constraint conn name schema h)
     = Raise IndexError)
    /\ (row = [] ->
        snd (RadioDuckDialect.get_view_definition conn name schema h)
        = Raise IndexError).
Proof.
  intros conn h name schema row (Hc & He & Hx) Hone. split; intros Hrow.
  - unfold_method. rewrite Hc, He; cbn beta iota zeta. rewrite Hone.
    destruct row as [|a [|b r]]; simpl in Hrow; try lia;
      cbn; rewrite Hx; reflexivity.
  - subst row. unfold_method. rewrite Hc, He; cbn beta iota zeta.
    rewrite Hone. cbn. rewrite Hx. reflexivity.
Qed.

Lemma short_fetched_row_raises_index_error_witness :
  snd (RadioDuckDialect.get_pk_constraint
         (scripted 1 [[VStr "pk_orders"]]) "orders" None [])
  = Raise IndexError.
Proof.
  apply (short_fetched_row_raises_index_error
           (scripted 1 [[VStr "pk_orders"]]) [] "orders" None
           [VStr "pk_orders"]).
  - repeat split.
  - reflexivity.
  - simpl. lia.
Defined.

(** ** Lists of names *)

Lemma concat_one_column (rows : list (list pyval)) :
  Forall (fun r => length r = 1%nat) rows ->
  Forall2 (fun r v => r = [v]) rows (concat rows).
Proof.
  induction 1 as [|r rows Hr _ IH]; simpl; [constructor|].
  destruct r as [|v [|? ?]]; try discriminate Hr. simpl.
  constructor; [reflexivity|exact IH].
Qed.

(** X15: on a connection that raises nowhere, each of the five methods that
    list names returns the column values of the fetched rows, row after row;
    when every row has one column, that is one name per row, in the order of
    the rows. *)
Theorem name_lists_flatten_the_rows :
  forall (conn : DBAPIConnection) (op : introspection) (h : list event)
         (rows : list (list pyval)),
    error_free conn ->
    (forall h', fetchall conn h' = Return rows) ->
    name_listing op = true ->
    snd (invoke conn op h) = Return (names (concat rows))
    /\ (Forall (fun r => length r = 1%nat) rows ->
        Forall2 (fun r v => r = [v]) rows (concat rows)).
Proof.
  intros conn op h rows (Hc & He & Hx) Hall Hop.
  split; [|apply concat_one_column].
  destruct op; try discriminate Hop; unfold_method;
    rewrite Hc, He; cbn beta iota zeta; rewrite Hall; cbn beta iota zeta;
    rewrite Hx; reflexivity.
Qed.

Lemma name_lists_flatten_the_rows_witness :
  snd (invoke (scripted 2 [[VStr "orders"]; [VStr "customers"]])
         (get_table_names (Some "sales")) [])
  = Return (names [VStr "orders"; VStr "customers"]).
Proof.
  apply (name_lists_flatten_the_rows
           (scripted 2 [[VStr "orders"]; [VStr "customers"]])
           (get_table_names (Some "sales")) []
           [[VStr "orders"]; [VStr "customers"]]).
  - repeat split.
  - reflexivity.
  - reflexivity.
Defined.

(** ** The primary key *)

(** X16: whatever the connection does, when [get_pk_constraint] returns, it
    returns no record if [fetchone] gave no row, and otherwise exactly one
    record, whose name and column names are the first two columns of the
    row that [fetchone] gave; it never returns more than one. *)
Theorem pk_constraint_returns_at_most_one_record :
  forall (conn : DBAPIConnection) (h : list event) (name : string)
         (schema : option string) (recs : list (gmap string pyval)),
    snd (RadioDuckDialect.get_pk_constraint conn name schema h) = Return recs ->
    let log :=
      h ++ [cursor_call true;
            execute_call queries.get_constraints
              [VStr (RadioDuckDialect.schema_or_main schema); VStr name;
               VStr "PRIMARY KEY"]] in
    (fetchone conn log = Return None /\ recs = [])
    \/ (exists row mp,
          fetchone conn log = Return (Some row)
          /\ recs = [mp]
          /\ mp !! "name" = row !! 0%nat
          /\ mp !! "column_names" = row !! 1%nat).
Proof.
  intros conn h name schema recs. unfold_method.
  destruct (cursor conn h) as [[]|?]; [|discriminate].
  cbn beta iota zeta.
  destruct (execute conn _ _ _) as [[]|?]; cbn beta iota zeta.
  - rewrite <- !app_assoc. simpl app.
    destruct (fetchone conn _) as [[row|]|?]; cbn beta iota zeta.
    + destruct row as [|a [|b r]]; cbn;
        destruct (close conn _) as [[]|?]; cbn; try discriminate.
      intros [= <-]. right. exists (a :: b :: r). eexists.
      split; [reflexivity|]. split; [reflexivity|]. split; reflexivity.
    + destruct (close conn _) as [[]|?]; cbn; try discriminate.
      intros [= <-]. left. split; reflexivity.
    + destruct (close conn _) as [[]|?]; cbn; discriminate.
  - destruct (close conn _) as [[]|?]; cbn; discriminate.
Qed.

Lemma pk_constraint_returns_at_most_one_record_witness :
  (fetchone (scripted 2 [[VStr "pk"; VList [VStr "id"]];
                         [VStr "other"; VList [VStr "x"]]])
     ([] ++ [cursor_call true;
             execute_call queries.get_constraints
               [VStr (RadioDuckDialect.schema_or_main None); VStr "orders";
                VStr "PRIMARY KEY"]])
   = Return None
   /\ [ ({[ "name" := VStr "pk"; "column_names" := VList [VStr "id"] ]}
          : gmap string pyval) ] = [])
  \/ (exists row mp,
        fetchone (scripted 2 [[VStr "pk"; VList [VStr "id"]];
                              [VStr "other"; VList [VStr "x"]]])
          ([] ++ [cursor_call true;
                  execute_call queries.get_constraints
                    [VStr (RadioDuckDialect.schema_or_main None); VStr "orders";
                     VStr "PRIMARY KEY"]])
        = Return (Some row)
        /\ [ ({[ "name" := VStr "pk"; "column_names" := VList [VStr "id"] ]}
               : gmap string pyval) ] = [mp]
        /\ mp !! "name" = row !! 0%nat
        /\ mp !! "column_names" = row !! 1%nat).
Proof.
  apply (pk_constraint_returns_at_most_one_record
           (scripted 2 [[VStr "pk"; VList [VStr "id"]];
                        [VStr "other"; VList [VStr "x"]]])
           [] "orders" None).
  reflexivity.
Defined.

(** ** Column names of an index *)

Lemma chars_lstrip (s : string) (c : ascii) :
  c ∈ pystr.chars (pystr.lstrip s) -> c ∈ pystr.chars s.
Proof.
  induction s as [|a r IH]; simpl; [auto|].
  destruct (pystr.isspace a); [|auto].
  intros H. apply elem_of_cons. right. auto.
Qed.

Lemma chars_rstrip (s : string) (c : ascii) :
  c ∈ pystr.chars (pystr.rstrip s) -> c ∈ pystr.chars s.
Proof.
  induction s as [|a r IH]; simpl; [auto|].
  destruct (pystr.rstrip r) as [|b r'].
  - destruct (pystr.isspace a); simpl.
    + intros H. apply elem_of_nil in H. contradiction.
    + intros H. apply elem_of_cons in H as [->|H]; [apply elem_of_cons; auto|].
      apply elem_of_nil in H. contradiction.
  - simpl. intros H. apply elem_of_cons in H as [->|H]; apply elem_of_cons; auto.
Qed.

Lemma chars_strip (s : string) (c : ascii) :
  c ∈ pystr.chars (pystr.strip s) -> c ∈ pystr.chars s.
Proof. intros H. apply chars_lstrip, chars_rstrip, H. Qed.

Lemma rstrip_idempotent (s : string) :
  pystr.rstrip (pystr.rstrip s) = pystr.rstrip s.
Proof.
  induction s as [|a r IH]; simpl; [reflexivity|].
  destruct (pystr.rstrip r) as [|b r'] eqn:E.
  - destruct (pystr.isspace a) eqn:Ha; simpl; [reflexivity|].
    rewrite Ha. reflexivity.
  - change (pystr.rstrip (String a (String b r')))
      with (match pystr.rstrip (String b r') with
            | EmptyString =>
                if pystr.isspace a then EmptyString else String a EmptyString
            | r'' => String a r''
            end).
    rewrite IH. reflexivity.
Qed.

Lemma rstrip_keeps_head (a : ascii) (r : string) :
  pystr.isspace a = false -> exists r', pystr.rstrip (String a r) = String a r'.
Proof.
  intros Ha. simpl. destruct (pystr.rstrip r); [rewrite Ha|]; eauto.
Qed.

(** Trimming what is trimmed changes nothing. *)
Lemma strip_idempotent (s : string) :
  pystr.strip (pystr.strip s) = pystr.strip s.
Proof.
  unfold pystr.strip.
  destruct (lstrip_spec s) as (l & _ & _ & Hfirst).
  destruct (pystr.lstrip s) as [|a r] eqn:E; [reflexivity|].
  pose proof (Hfirst a r eq_refl) as Ha.
  destruct (rstrip_keeps_head a r Ha) as (r' & Hr).
  rewrite Hr. simpl pystr.lstrip. rewrite Ha, <- Hr.
  apply rstrip_idempotent.
Qed.

Lemma chars_split (sep : ascii) (s : string) :
  Forall (fun piece => forall c, c ∈ pystr.chars piece -> c ∈ pystr.chars s)
    (pystr.split sep s).
Proof.
  induction s as [|a r IH]; simpl.
  - constructor; [auto|constructor].
  - destruct (Ascii.eqb a sep).
    + constructor.
      * simpl. intros c H. apply elem_of_nil in H. contradiction.
      * eapply Forall_impl; [exact IH|]. simpl. intros p Hp c Hc.
        apply elem_of_cons. right. auto.
    + destruct (pystr.split sep r) as [|p ps].
      * constructor; [|constructor]. simpl. intros c Hc.
        apply elem_of_cons in Hc as [->|Hc]; [apply elem_of_cons; auto|].
        apply elem_of_nil in Hc. contradiction.
      * inversion IH as [|? ? Hp Hps]; subst. constructor.
        -- simpl. intros c Hc. apply elem_of_cons in Hc as [->|Hc];
             apply elem_of_cons; auto.
        -- eapply Forall_impl; [exact Hps|]. simpl. intros q Hq c Hc.
           apply elem_of_cons. right. auto.
Qed.

(** The names derived from a group are clean. *)
Lemma group_columns_clean (g : string) :
  ")"%char ∉ pystr.chars g -> re.newline ∉ pystr.chars g ->
  Forall clean_column (pystr.strip <$> pystr.split "," g).
Proof.
  intros H1 H2. apply Forall_fmap.
  pose proof (split_pieces "," g) as Hsep.
  pose proof (chars_split "," g) as Hsub.
  induction (pystr.split "," g) as [|p ps IH]; [constructor|].
  inversion Hsep as [|? ? Hp Hps]; inversion Hsub as [|? ? Hq Hqs]; subst.
  constructor; [|apply IH; assumption].
  simpl. unfold clean_column. repeat split.
  - intros H. apply Hp, chars_strip, H.
  - intros H. apply H1, Hq, chars_strip, H.
  - intros H. apply H2, Hq, chars_strip, H.
  - apply strip_idempotent.
Qed.

Lemma add_column_names_clean (mp mp' : gmap string pyval) :
  RadioDuckDialect.add_column_names mp = Return mp' ->
  mp' !! "sql" = None
  /\ exists cols,
       mp' !! "column_names" = Some (VList (VStr <$> cols))
       /\ Forall clean_column cols.
Proof.
  unfold RadioDuckDialect.add_column_names.
  destruct (_ !! "sql") as [[| | |sql|]|]; try discriminate.
  destruct (re.search sql) as [g|] eqn:E; intros [= <-];
    (split; [apply lookup_delete_eq|]).
  - exists (pystr.strip <$> pystr.split "," g). split.
    + rewrite lookup_delete_ne by discriminate. apply lookup_insert_eq.
    + apply search_some in E as (pre & post & (_ & H1 & H2) & _).
      apply group_columns_clean; assumption.
  - exists []. split; [|constructor].
    rewrite lookup_delete_ne by discriminate. apply lookup_insert_eq.
Qed.

Lemma get_indexes_returns_inv conn table_name schema h
  (recs : list (gmap string pyval)) :
  snd (RadioDuckDialect.get_indexes conn table_name schema h) = Return recs ->
  exists rows maps,
    comprehension RadioDuckDialect.index_record rows = Return maps
    /\ comprehension RadioDuckDialect.add_column_names maps = Return recs.
Proof.
  unfold_method.
  destruct (cursor conn h) as [[]|?]; [|discriminate].
  cbn beta iota zeta.
  destruct (execute conn _ _ _) as [[]|?]; cbn beta iota zeta.
  - destruct (fetchall conn _) as [rows|?]; cbn beta iota zeta.
    + destruct (comprehension RadioDuckDialect.index_record rows)
        as [maps|?] eqn:Em; cbn beta iota zeta.
      * destruct (comprehension RadioDuckDialect.add_column_names maps)
          as [recs'|?] eqn:Er; cbn beta iota zeta;
          destruct (close conn _) as [[]|?]; cbn; try discriminate.
        intros [= <-]. eauto.
      * destruct (close conn _) as [[]|?]; cbn; discriminate.
    + destruct (close conn _) as [[]|?]; cbn; discriminate.
  - destruct (close conn _) as [[]|?]; cbn; discriminate.
Qed.

(** X17: whatever the connection does, every record that [get_indexes]
    returns has no "sql" key and has a list of strings under
    "column_names", each of which holds no comma, no closing parenthesis and
    no newline, and has no whitespace left to trim at either end. *)
Theorem index_column_names_are_clean :
  forall (conn : DBAPIConnection) (h : list event) (table_name : string)
         (schema : option string) (recs : list (gmap string pyval)),
    snd (RadioDuckDialect.get_indexes conn table_name schema h) = Return recs ->
    Forall (fun mp =>
              mp !! "sql" = None
              /\ exists cols,
                   mp !! "column_names" = Some (VList (VStr <$> cols))
                   /\ Forall clean_column cols)
      recs.
Proof.
  intros conn h table_name schema recs Hret.
  apply get_indexes_returns_inv in Hret as (rows & maps & _ & Hrecs).
  apply comprehension_return in Hrecs.
  induction Hrecs as [|mp mp' maps recs Hmp _ IH]; constructor; [|exact IH].
  apply (add_column_names_clean mp mp' Hmp).
Qed.

Lemma index_column_names_are_clean_witness :
  Forall (fun mp : gmap string pyval =>
            mp !! "sql" = None
            /\ exists cols,
                 mp !! "column_names" = Some (VList (VStr <$> cols))
                 /\ Forall clean_column cols)
    [ {[ "name" := VStr "idx"; "unique" := VBool false;
         "column_names" := VList [VStr "x"; VStr "lower(a"] ]} ].
Proof.
  apply (index_column_names_are_clean
           (scripted 1 [[VStr "idx";
                         VStr "CREATE INDEX idx ON t ( x , lower(a) )";
                         VBool false]])
           [] "t" None).
  vm_compute. reflexivity.
Defined.

Lemma length_split (sep : ascii) (s : string) :
  length (pystr.split sep s)
  = S (count_occ Ascii.ascii_dec (pystr.chars s) sep).
Proof.
  induction s as [|a r IH]; simpl pystr.split; simpl pystr.chars; [reflexivity|].
  destruct (Ascii.eqb a sep) eqn:E.
  - apply Ascii.eqb_eq in E. subst a.
    rewrite count_occ_cons_eq by reflexivity. simpl. rewrite IH. reflexivity.
  - apply Ascii.eqb_neq in E. rewrite count_occ_cons_neq by exact E.
    rewrite <- IH. destruct (pystr.split sep r); [discriminate IH|reflexivity].
Qed.

(** X18: when the first opening parenthesis of the creation SQL opens a
    group on one line, the loop body of [get_indexes] stores one column name
    more than the group has commas: never the empty list, so that empty
    parentheses give one empty name and a trailing comma gives a last empty
    name. *)
Theorem column_names_count_the_commas :
  forall (name unique : pyval) (pre g post : string),
    "("%char ∉ pystr.chars pre ->
    ")"%char ∉ pystr.chars g ->
    re.newline ∉ pystr.chars g ->
    exists cols,
      RadioDuckDialect.add_column_names
        {[ "name" := name;
           "sql" := VStr (pre +:+ "(" +:+ g +:+ ")" +:+ post);
           "unique" := unique ]}
      = Return {[ "name" := name; "unique" := unique;
                  "column_names" := VList (VStr <$> cols) ]}
      /\ length cols
         = S (count_occ Ascii.ascii_dec (pystr.chars g) ","%char).
Proof.
  intros name unique pre g post Hpre H1 H2.
  exists (pystr.strip <$> pystr.split "," g). split.
  - rewrite add_column_names_of_record, search_after_prefix by assumption.
    reflexivity.
  - rewrite length_fmap. apply length_split.
Qed.

Lemma column_names_count_the_commas_witness :
  exists cols,
    RadioDuckDialect.add_column_names
      {[ "name" := VStr "idx";
         "sql" := VStr ("CREATE INDEX idx ON t " +:+ "(" +:+ "a," +:+ ")" +:+ ";");
         "unique" := VBool false ]}
    = Return {[ "name" := VStr "idx"; "unique" := VBool false;
                "column_names" := VList (VStr <$> cols) ]}
    /\ length cols = S (count_occ Ascii.ascii_dec (pystr.chars "a,") ","%char).
Proof.
  apply (column_names_count_the_commas (VStr "idx") (VBool false)
           "CREATE INDEX idx ON t " "a," ";");
    rewrite list_elem_of_In; vm_compute; intros H;
    repeat (destruct H as [H|H]; [discriminate H|]); exact H.
Defined.

(** ** Constraints *)

(** X19: the three constraint methods execute the same statement with the
    same schema and table parameters and differ in the third parameter only:
    "UNIQUE", "PRIMARY KEY" or "FOREIGN KEY".  Served the same rows by a
    connection that raises nowhere, [get_unique_constraints] and
    [get_foreign_keys] end alike, with the same records or the same
    exception. *)
Theorem constraint_methods_share_one_statement :
  forall (conn : DBAPIConnection) (h : list event) (table_name : string)
         (schema : option string) (rows : list (list pyval)),
    error_free conn ->
    (forall h', fetchall conn h' = Return rows) ->
    let issued kind :=
      [(queries.get_constraints,
        [VStr (RadioDuckDialect.schema_or_main schema); VStr table_name;
         VStr kind])] in
    executed (emitted (RadioDuckDialect.get_unique_constraints
                         conn table_name schema) h) = issued "UNIQUE"
    /\ executed (emitted (RadioDuckDialect.get_pk_constraint
                            conn table_name schema) h) = issued "PRIMARY KEY"
    /\ executed (emitted (RadioDuckDialect.get_foreign_keys
                            conn table_name schema) h) = issued "FOREIGN KEY"
    /\ snd (RadioDuckDialect.get_unique_constraints conn table_name schema h)
       = snd (RadioDuckDialect.get_foreign_keys conn table_name schema h).
Proof.
  intros conn h table_name schema rows (Hc & He & Hx) Hall issued.
  subst issued. cbv beta.
  repeat split.
  1-3: unfold emitted; unfold_method; rewrite Hc;
    answer_calls; cbn [fst]; rewrite <- ?app_assoc, drop_app_length;
    reflexivity.
  unfold_method. rewrite Hc, !He. cbn beta iota zeta. rewrite !Hall.
  destruct (comprehension RadioDuckDialect.constraint_record rows);
    cbn beta iota zeta; rewrite !Hx; reflexivity.
Qed.

Lemma constraint_methods_share_one_statement_witness :
  snd (RadioDuckDialect.get_unique_constraints
         (scripted 1 [[VStr "c1"; VList [VStr "a"]]]) "orders" None [])
  = snd (RadioDuckDialect.get_foreign_keys
           (scripted 1 [[VStr "c1"; VList [VStr "a"]]]) "orders" None []).
Proof.
  apply (constraint_methods_share_one_statement
           (scripted 1 [[VStr "c1"; VList [VStr "a"]]]) [] "orders" None
           [[VStr "c1"; VList [VStr "a"]]]).
  - repeat split.
  - reflexivity.
Defined.

(** X20: for a creation SQL that is a string, the loop body of
    [get_indexes] stores the empty list of column names exactly when the SQL
    has no parenthesized group on one line; a group, even an empty one,
    gives at least one name. *)
Theorem column_names_empty_iff_no_group :
  forall (name unique : pyval) (sql : string),
    exists cols,
      RadioDuckDialect.add_column_names
        {[ "name" := name; "sql" := VStr sql; "unique" := unique ]}
      = Return {[ "name" := name; "unique" := unique;
                  "column_names" := VList (VStr <$> cols) ]}
      /\ (cols = [] <-> no_group sql).
Proof.
  intros name unique sql.
  eexists. split; [apply add_column_names_of_record|].
  destruct (re.search sql) as [g|] eqn:E.
  - split.
    + intros H. apply (f_equal length) in H.
      rewrite length_fmap, length_split in H. discriminate H.
    + intros Hno. apply search_some in E as (pre & post & Hat & _).
      destruct (Hno _ _ _ Hat).
  - split; [intros _; apply search_none, E|reflexivity].
Qed.
